(** * Plugin manager: registry, dispatcher, resource relay, crash watch

    A shallow embedding of [pkg/plugins/models.go] (the error values of
    package [plugins]) and of the plugin manager that follows it in the same
    source file (package [manager]): the registry lookups, the request
    dispatcher, [flushStream], [Uninstall], [restartKilledProcess] and the
    resource response stream.

    Go pointers to plugin handles are locations of a store, so that the
    handle reached through the registry map and the handle a caller holds
    are the same object.  Effects that leave the manager (validator calls,
    plugin calls, installer calls, error responses, log lines) are recorded
    in order in a trace. *)

From Stdlib Require Import ZArith String Ascii List Bool Lia.
From stdpp Require Import base gmap strings list fin_maps.

Local Open Scope string_scope.
Local Open Scope Z_scope.

(** ** Errors *)

Module Errors.

(** Go error values.  The package-level sentinels are constructors of their
    own: [errors.Is] compares them by identity, never by message. *)
Inductive error : Type :=
  (* package plugins, models.go *)
  | ErrInstallCorePlugin
  | ErrUninstallCorePlugin
  | ErrUninstallOutsideOfPluginDir
  | ErrPluginNotInstalled
  (* package backendplugin *)
  | ErrPluginNotRegistered
  | ErrMethodNotImplemented
  | ErrPluginUnavailable
  | ErrHealthCheckFailed
  (* io, context *)
  | io_EOF
  | context_Canceled
  | context_DeadlineExceeded
  (* errors.New(msg), fmt.Errorf without a wrapping verb *)
  | errors_New (msg : string)
  (* fmt.Errorf("msg: %w", inner) *)
  | fmt_Errorf_w (msg : string) (inner : error).

#[global] Instance error_eq_dec : EqDecision error.
Proof. solve_decision. Defined.

(** [errors.Is]: walks the chain of wrapped errors, comparing each link with
    the target. *)
Fixpoint errors_Is (err target : error) : bool :=
  if decide (err = target) then true
  else match err with
       | fmt_Errorf_w _ inner => errors_Is inner target
       | _ => false
       end.

(** [errors.Is] on a possibly nil error. *)
Definition errors_Is_opt (err : option error) (target : error) : bool :=
  match err with
  | Some e => errors_Is e target
  | None => false
  end.

(** Modelled from the spec: [errutil.Wrap] (package [pkg/util/errutil], not
    in the source file) wraps an underlying error with a context message. *)
Definition errutil_Wrap (message : string) (err : error) : error :=
  fmt_Errorf_w message err.

End Errors.
Export Errors.

(** ** Lexical paths ([path/filepath], slash-separated) *)

Module Filepath.

Definition Separator : ascii := "/"%char.

(** Splits on [Separator]; [acc] is the element being read. *)
Fixpoint splitSep (s acc : string) : list string :=
  match s with
  | EmptyString => [acc]
  | String c s' =>
      if Ascii.eqb c Separator then acc :: splitSep s' EmptyString
      else splitSep s' (acc +:+ String c EmptyString)
  end.

Fixpoint joinSep (l : list string) : string :=
  match l with
  | [] => EmptyString
  | [x] => x
  | x :: l' => x +:+ "/" +:+ joinSep l'
  end.

Definition isSlashed (s : string) : bool :=
  match s with
  | String c _ => Ascii.eqb c Separator
  | EmptyString => false
  end.

(** One element of [Clean]: [out] is the stack of elements kept so far,
    innermost first. *)
Definition cleanElem (rooted : bool) (out : list string) (e : string) : list string :=
  if decide (e = EmptyString) then out
  else if decide (e = ".") then out
  else if decide (e = "..") then
    match out with
    | top :: rest => if decide (top = "..") then e :: out else rest
    | [] => if rooted then out else [e]
    end
  else e :: out.

(** [filepath.Clean]: the shortest path equivalent to [path] by purely
    lexical processing. *)
Definition Clean (path : string) : string :=
  if decide (path = EmptyString) then "."
  else
    let rooted := isSlashed path in
    let out := rev (foldl (cleanElem rooted) [] (splitSep path EmptyString)) in
    if rooted then "/" +:+ joinSep out
    else if decide (out = []) then "." else joinSep out.

(** The elements the scan of [Rel] walks through. *)
Definition elems (p : string) : list string :=
  if decide (p = EmptyString) then []
  else if decide (p = "/") then [EmptyString]
  else splitSep p EmptyString.

Fixpoint dropCommon (bs ts : list string) : list string * list string :=
  match bs, ts with
  | b :: bs', t :: ts' => if decide (t = b) then dropCommon bs' ts' else (bs, ts)
  | _, _ => (bs, ts)
  end.

(** [filepath.Rel]: a relative path that is lexically equivalent to
    [targpath] when joined to [basepath]; [None] is the error result. *)
Definition Rel (basepath targpath : string) : option string :=
  let base := Clean basepath in
  let targ := Clean targpath in
  if decide (targ = base) then Some "."
  else
    let base := if decide (base = ".") then EmptyString else base in
    if negb (eqb (isSlashed base) (isSlashed targ)) then None
    else
      let '(bs, ts) := dropCommon (elems base) (elems targ) in
      match bs, ts with
      | b :: _, _ :: _ =>
          if decide (b = "..") then None
          else Some (joinSep (map (fun _ => "..") bs ++ ts))
      | _ :: _, [] => Some (joinSep (map (fun _ => "..") bs))
      | [], _ => Some (joinSep ts)
      end.

(** [strings.HasPrefix]. *)
Definition HasPrefix (s pre : string) : bool := String.prefix pre s.

End Filepath.

(** ** Values exchanged with a plugin (package [backend] of the plugin SDK) *)

Record DataSourceInstanceSettings := {
  dsURL : string;
  dsJSONData : string;
}.

Record PluginContext := {
  PluginID : string;
  (* nil when the call is not made for a data source *)
  DataSourceInstanceSettings_ : option DataSourceInstanceSettings;
}.

Record QueryDataRequest := {
  qdPluginContext : PluginContext;
  qdQueries : list string;
}.

Record QueryDataResponse := { qdResponses : list (string * string) }.

(** [&backend.QueryDataResponse{}] *)
Definition emptyQueryDataResponse : QueryDataResponse := {| qdResponses := [] |}.

Record CheckHealthResult := {
  chStatus : Z;
  chMessage : string;
}.

Record CollectMetricsResult := { cmPrometheusMetrics : string }.

(** [http.Header] and the header map of a response chunk: both are
    [map[string][]string]. *)
Abbreviation Header := (gmap string (list string)).

Record CallResourceResponse := {
  crStatus : Z;
  (* a nil map is [None] *)
  crHeaders : option Header;
  crBody : string;
}.

Record CallResourceRequest := {
  crqPluginContext : PluginContext;
  crqPath : string;
  crqMethod : string;
  crqURL : string;
  crqHeaders : Header;
  crqBody : string;
}.

(** ** Plugin handles *)

Definition PluginType := string.

Inductive PluginClass := Core | Bundled | External.

#[global] Instance PluginClass_eq_dec : EqDecision PluginClass.
Proof. solve_decision. Defined.

(** Modelled from the spec: the handle type [plugins.PluginV2] is declared
    outside the source file.  Its fields follow the data model of the spec
    (identity, type, backend and managed flags, class, install directory,
    version, the decommissioned flag and the process state), and what its
    backend answers to each capability call is carried by the handle. *)
Record PluginV2 := {
  ID : string;
  Type_ : PluginType;
  Backend : bool;
  managed : bool;
  Class : PluginClass;
  PluginDir : string;
  InfoVersion : string;
  decommissioned : bool;
  exited : bool;
  onQueryData : QueryDataRequest -> option QueryDataResponse * option error;
  onCheckHealth : PluginContext -> option CheckHealthResult * option error;
  onCollectMetrics : option CollectMetricsResult * option error;
  onStart : option error;
  onStop : option error;
  onDecommission : option error;
}.

Definition IsDecommissioned (p : PluginV2) : bool := decommissioned p.
Definition Exited (p : PluginV2) : bool := exited p.
Definition IsManaged (p : PluginV2) : bool := managed p.
Definition IsExternalPlugin (p : PluginV2) : bool := bool_decide (Class p = External).

Definition set_decommissioned (b : bool) (p : PluginV2) : PluginV2 :=
  {| ID := ID p; Type_ := Type_ p; Backend := Backend p; managed := managed p;
     Class := Class p; PluginDir := PluginDir p; InfoVersion := InfoVersion p;
     decommissioned := b; exited := exited p;
     onQueryData := onQueryData p; onCheckHealth := onCheckHealth p;
     onCollectMetrics := onCollectMetrics p; onStart := onStart p;
     onStop := onStop p; onDecommission := onDecommission p |}.

(** ** The manager and its world *)

(** A handle pointer [*plugins.PluginV2]; nil is [None] of [option ptr]. *)
Definition ptr := nat.

(** A parsed [*url.URL]. *)
Record URL := {
  urlPath : string;
  urlRawQuery : string;
  urlString : string;
}.

(** An inbound [*http.Request], as far as the manager looks into it. *)
Record Request := {
  reqMethod : string;
  reqURL : URL;
  reqHeader : Header;
  (* what ioutil.ReadAll(req.Body) gives *)
  reqBody : string + error;
}.

Definition set_reqURL (u : URL) (r : Request) : Request :=
  {| reqMethod := reqMethod r; reqURL := u; reqHeader := reqHeader r;
     reqBody := reqBody r |}.

Inductive Capability :=
  | CapQueryData | CapCallResource | CapCheckHealth | CapCollectMetrics
  | CapStart | CapStop | CapDecommission.

Inductive LogLevel := LvlDebug | LvlWarn | LvlError.

(** What leaves the manager, in order. *)
Inductive Event :=
  | EvValidate (url : string)                            (* requestValidator.Validate *)
  | EvPlugin (p : ptr) (c : Capability)                  (* a call into a plugin handle *)
  | EvJsonApiErr (status : Z) (message : string) (err : error) (* reqCtx.JsonApiErr *)
  | EvInstallerUninstall (dir : string)                  (* pluginInstaller.Uninstall *)
  | EvLog (lvl : LogLevel) (msg : string).

#[global] Instance Capability_eq_dec : EqDecision Capability.
Proof. solve_decision. Defined.
#[global] Instance LogLevel_eq_dec : EqDecision LogLevel.
Proof. solve_decision. Defined.
#[global] Instance Event_eq_dec : EqDecision Event.
Proof. solve_decision. Defined.

Record PluginManager := {
  Cfg_PluginsPath : string;
  (* requestValidator.Validate(dsURL, req); the request may be nil *)
  requestValidator : string -> option Request -> option error;
  (* pluginInstaller.Uninstall(ctx, dir) *)
  pluginInstaller_Uninstall : string -> option error;
  plugins : gmap string ptr;
}.

Definition set_plugins (ps : gmap string ptr) (m : PluginManager) : PluginManager :=
  {| Cfg_PluginsPath := Cfg_PluginsPath m;
     requestValidator := requestValidator m;
     pluginInstaller_Uninstall := pluginInstaller_Uninstall m;
     plugins := ps |}.

Record World := {
  mgr : PluginManager;
  heap : ptr -> PluginV2;
  trace : list Event;
}.

(** State passing over the world. *)
Definition M (A : Type) : Type := World -> A * World.

Definition ret {A} (a : A) : M A := fun w => (a, w).
Definition bind {A B} (c : M A) (k : A -> M B) : M B :=
  fun w => let '(a, w') := c w in k a w'.

Notation "'let*' x ':=' c 'in' k" := (bind c (fun x => k))
  (at level 10, x name, c at level 100, k at level 200).
Notation "'let*' ' pat ':=' c 'in' k" := (bind c (fun x => match x with pat => k end))
  (at level 10, pat pattern, c at level 100, k at level 200).
Notation "'do*' c 'in' k" := (bind c (fun _ => k))
  (at level 10, c at level 100, k at level 200).

Definition gets {A} (f : World -> A) : M A := fun w => (f w, w).

Definition emit (e : Event) : M unit :=
  fun w => (tt, {| mgr := mgr w; heap := heap w; trace := trace w ++ [e] |}).

Definition store (p : ptr) (v : PluginV2) : M unit :=
  fun w => (tt, {| mgr := mgr w;
                   heap := fun q => if decide (q = p) then v else heap w q;
                   trace := trace w |}).

Definition modify_plugins (f : gmap string ptr -> gmap string ptr) : M unit :=
  fun w => (tt, {| mgr := set_plugins (f (plugins (mgr w))) (mgr w);
                   heap := heap w; trace := trace w |}).

(** ** Registry lookups *)

(** [PluginManager.Plugin] *)
Definition Plugin (w : World) (pluginID : string) : option ptr :=
  match plugins (mgr w) !! pluginID with
  | Some p => if IsDecommissioned (heap w p) then None else Some p
  | None => None
  end.

(** [PluginManager.PluginByType] *)
Definition PluginByType (w : World) (pluginID : string) (pluginType : PluginType)
  : option ptr :=
  match plugins (mgr w) !! pluginID with
  | Some p =>
      if IsDecommissioned (heap w p) || negb (bool_decide (Type_ (heap w p) = pluginType))
      then None else Some p
  | None => None
  end.

Section Plugins.

(** [plugins.PluginTypes], declared outside the source file: the list of
    all plugin types. *)
Variable PluginTypes : list PluginType.

(** [PluginManager.Plugins].  The handles come out in the iteration order
    of the registry map. *)
Definition Plugins (w : World) (pluginTypes : list PluginType) : list ptr :=
  let pluginTypes :=
    if (length pluginTypes =? 0)%nat then PluginTypes else pluginTypes in
  let requestedTypes : gset PluginType := list_to_set pluginTypes in
  foldl (fun pluginsList (kp : string * ptr) =>
           if bool_decide (Type_ (heap w kp.2) ∈ requestedTypes)
           then (pluginsList ++ [kp.2])%list else pluginsList)
        [] (map_to_list (plugins (mgr w))).

End Plugins.

(** [PluginManager.isRegistered] *)
Definition isRegistered (w : World) (pluginID : string) : bool :=
  match Plugin w pluginID with
  | None => false
  | Some p => negb (IsDecommissioned (heap w p))
  end.

(** ** Calls into a handle *)

(** Modelled from the spec: the capability surface of a handle is declared
    outside the source file.  A call is recorded in the trace and answers
    what the handle's backend answers; [Decommission] also sets the handle's
    decommissioned flag, in place, when it succeeds. *)
Definition plugin_QueryData (p : ptr) (req : QueryDataRequest)
  : M (option QueryDataResponse * option error) :=
  do* emit (EvPlugin p CapQueryData) in
  gets (fun w => onQueryData (heap w p) req).

Definition plugin_CheckHealth (p : ptr) (pCtx : PluginContext)
  : M (option CheckHealthResult * option error) :=
  do* emit (EvPlugin p CapCheckHealth) in
  gets (fun w => onCheckHealth (heap w p) pCtx).

Definition plugin_CollectMetrics (p : ptr)
  : M (option CollectMetricsResult * option error) :=
  do* emit (EvPlugin p CapCollectMetrics) in
  gets (fun w => onCollectMetrics (heap w p)).

Definition plugin_Stop (p : ptr) : M (option error) :=
  do* emit (EvPlugin p CapStop) in
  gets (fun w => onStop (heap w p)).

Definition plugin_Decommission (p : ptr) : M (option error) :=
  do* emit (EvPlugin p CapDecommission) in
  let* h := gets (fun w => heap w p) in
  match onDecommission h with
  | Some err => ret (Some err)
  | None => do* store p (set_decommissioned true h) in ret None
  end.

(** Modelled from the spec: the instrumentation wrappers (package
    [instrumentation], not in the source file) time and count a unit of
    work and are transparent to control flow. *)
Definition Instrument {A} (pluginID : string) (fn : M A) : M A := fn.

Definition validate (url : string) (req : option Request) : M (option error) :=
  do* emit (EvValidate url) in
  gets (fun w => requestValidator (mgr w) url req).

Definition dataSourceURL (pCtx : PluginContext) : string :=
  match DataSourceInstanceSettings_ pCtx with
  | Some dis => dsURL dis
  | None => EmptyString
  end.

(** ** Request dispatcher *)

(** [PluginManager.QueryData] *)
Definition QueryData (req : QueryDataRequest)
  : M (option QueryDataResponse * option error) :=
  let* plugin := gets (fun w => Plugin w (PluginID (qdPluginContext req))) in
  match plugin with
  | None => ret (Some emptyQueryDataResponse, None)
  | Some plugin =>
      let* '(resp, err) :=
        Instrument (PluginID (qdPluginContext req)) (plugin_QueryData plugin req) in
      match err with
      | Some err =>
          if errors_Is err ErrMethodNotImplemented then ret (None, Some err)
          else if errors_Is err ErrPluginUnavailable then ret (None, Some err)
          else ret (None, Some (errutil_Wrap "failed to query data" err))
      | None => ret (resp, None)
      end
  end.

(** [PluginManager.CollectMetrics] *)
Definition CollectMetrics (pluginID : string)
  : M (option CollectMetricsResult * option error) :=
  let* p := gets (fun w => Plugin w pluginID) in
  match p with
  | None => ret (None, Some ErrPluginNotRegistered)
  | Some p =>
      let* id := gets (fun w => ID (heap w p)) in
      let* '(resp, err) := Instrument id (plugin_CollectMetrics p) in
      match err with
      | Some err => ret (None, Some err)
      | None => ret (resp, None)
      end
  end.

(** [PluginManager.CheckHealth] *)
Definition CheckHealth (pluginContext : PluginContext)
  : M (option CheckHealthResult * option error) :=
  let* err := validate (dataSourceURL pluginContext) None in
  match err with
  | Some _ =>
      ret (Some {| chStatus := 403; chMessage := "Access denied" |}, None)
  | None =>
      let* p := gets (fun w => Plugin w (PluginID pluginContext)) in
      match p with
      | None => ret (None, Some ErrPluginNotRegistered)
      | Some p =>
          let* id := gets (fun w => ID (heap w p)) in
          let* '(resp, err) := Instrument id (plugin_CheckHealth p pluginContext) in
          match err with
          | Some err =>
              if errors_Is err ErrMethodNotImplemented then ret (None, Some err)
              else if errors_Is err ErrPluginUnavailable then ret (None, Some err)
              else ret (None, Some (errutil_Wrap "failed to check plugin health"
                                                 ErrHealthCheckFailed))
          | None => ret (resp, None)
          end
      end
  end.

(** [handleCallResourceError] *)
Definition handleCallResourceError (err : error) : M unit :=
  if errors_Is err ErrPluginUnavailable then
    emit (EvJsonApiErr 503 "Plugin unavailable" err)
  else if errors_Is err ErrMethodNotImplemented then
    emit (EvJsonApiErr 404 "Not found" err)
  else emit (EvJsonApiErr 500 "Failed to call resource" err).

Section CallResource.

(** [url.Parse] *)
Variable url_Parse : string -> URL + error.
(** [json.Unmarshal] into [keepCookiesJSONModel], giving [KeepCookies] *)
Variable json_Unmarshal_keepCookies : string -> list string + error.
(** [proxyutil.ClearCookieHeader], [proxyutil.PrepareProxyRequest] *)
Variable ClearCookieHeader : Request -> list string -> Request.
Variable PrepareProxyRequest : Request -> Request.
(** What the instrumented closure of [callResourceInternal] returns: there
    the plugin's CallResource runs against a fresh stream while a second
    goroutine runs [flushStream] on it. *)
Variable relay : ptr -> CallResourceRequest -> M (option error).

(** [PluginManager.callResourceInternal] *)
Definition callResourceInternal (req : Request) (pCtx : PluginContext)
  : M (option error) :=
  let* p := gets (fun w => Plugin w (PluginID pCtx)) in
  match p with
  | None => ret (Some ErrPluginNotRegistered)
  | Some p =>
      let* keepCookies :=
        match DataSourceInstanceSettings_ pCtx with
        | Some dis =>
            match json_Unmarshal_keepCookies (dsJSONData dis) with
            | inl ks => ret ks
            | inr _ =>
                do* emit (EvLog LvlError
                  "Failed to to unpack JSONData in datasource instance settings") in
                ret []
            end
        | None => ret []
        end in
      let req := PrepareProxyRequest (ClearCookieHeader req keepCookies) in
      match reqBody req with
      | inr err => ret (Some (fmt_Errorf_w "failed to read request body" err))
      | inl body =>
          let crReq := {| crqPluginContext := pCtx;
                          crqPath := urlPath (reqURL req);
                          crqMethod := reqMethod req;
                          crqURL := urlString (reqURL req);
                          crqHeaders := reqHeader req;
                          crqBody := body |} in
          let* id := gets (fun w => ID (heap w p)) in
          Instrument id (do* emit (EvPlugin p CapCallResource) in relay p crReq)
      end
  end.

(** [PluginManager.CallResource]; [req] is [reqCtx.Req]. *)
Definition CallResource (pCtx : PluginContext) (req : Request) (path : string)
  : M unit :=
  let* err := validate (dataSourceURL pCtx) (Some req) in
  match err with
  | Some err => emit (EvJsonApiErr 403 "Access denied" err)
  | None =>
      let clonedReq := req in
      let rawURL :=
        if negb (bool_decide (urlRawQuery (reqURL clonedReq) = EmptyString))
        then path +:+ "?" +:+ urlRawQuery (reqURL clonedReq)
        else path in
      match url_Parse rawURL with
      | inr err => handleCallResourceError err
      | inl urlPath =>
          let clonedReq := set_reqURL urlPath clonedReq in
          let* err := callResourceInternal clonedReq pCtx in
          match err with
          | Some err => handleCallResourceError err
          | None => ret tt
          end
      end
  end.

End CallResource.

(** ** Uninstall *)

(** [PluginManager.unregisterAndStop] *)
Definition unregisterAndStop (p : ptr) : M (option error) :=
  do* emit (EvLog LvlDebug "Stopping plugin process") in
  let* err := plugin_Decommission p in
  match err with
  | Some err => ret (Some err)
  | None =>
      let* err := plugin_Stop p in
      match err with
      | Some err => ret (Some err)
      | None =>
          let* id := gets (fun w => ID (heap w p)) in
          do* modify_plugins (delete id) in
          do* emit (EvLog LvlDebug "Plugin unregistered") in
          ret None
      end
  end.

Definition installer_Uninstall (dir : string) : M (option error) :=
  do* emit (EvInstallerUninstall dir) in
  gets (fun w => pluginInstaller_Uninstall (mgr w) dir).

(** [PluginManager.Uninstall] *)
Definition Uninstall (pluginID : string) : M (option error) :=
  let* plugin := gets (fun w => Plugin w pluginID) in
  match plugin with
  | None => ret (Some ErrPluginNotInstalled)
  | Some plugin =>
      let* h := gets (fun w => heap w plugin) in
      if negb (IsExternalPlugin h) then ret (Some ErrUninstallCorePlugin)
      else
        let* root := gets (fun w => Cfg_PluginsPath (mgr w)) in
        (* extra security check: only remove plugins located in the configured
           plugins directory *)
        let outside :=
          match Filepath.Rel root (PluginDir h) with
          | None => true
          | Some path => Filepath.HasPrefix path (".." +:+ String Filepath.Separator EmptyString)
          end in
        if outside then ret (Some ErrUninstallOutsideOfPluginDir)
        else
          let* registered := gets (fun w => isRegistered w pluginID) in
          let* err := (if registered then unregisterAndStop plugin else ret None) in
          match err with
          | Some err => ret (Some err)
          | None => installer_Uninstall (PluginDir h)
          end
  end.

(** ** The HTTP response written by the relay *)

Module Http.

Definition byte_of (c : ascii) : nat := nat_of_ascii c.

Definition isLower (c : ascii) : bool := (97 <=? byte_of c)%nat && (byte_of c <=? 122)%nat.
Definition isUpper (c : ascii) : bool := (65 <=? byte_of c)%nat && (byte_of c <=? 90)%nat.
Definition isDigit (c : ascii) : bool := (48 <=? byte_of c)%nat && (byte_of c <=? 57)%nat.

Definition toUpper (c : ascii) : ascii := ascii_of_nat (byte_of c - 32).
Definition toLower (c : ascii) : ascii := ascii_of_nat (byte_of c + 32).

(** The bytes of an HTTP token: letters, digits and a few marks. *)
Definition validHeaderFieldByte (c : ascii) : bool :=
  isLower c || isUpper c || isDigit c
  || existsb (Ascii.eqb c) (list_ascii_of_string "!#$%&'*+-.^_`|~").

Fixpoint canonicalLoop (upper : bool) (s : string) : string :=
  match s with
  | EmptyString => EmptyString
  | String c s' =>
      let c' := if upper && isLower c then toUpper c
                else if negb upper && isUpper c then toLower c
                else c in
      String c' (canonicalLoop (Ascii.eqb c' "-") s')
  end.

(** [textproto.CanonicalMIMEHeaderKey]: first letter and every letter after
    a hyphen in upper case, the others in lower case; a key with a byte that
    is not a token byte is left as it is. *)
Definition CanonicalMIMEHeaderKey (s : string) : string :=
  if forallb validHeaderFieldByte (list_ascii_of_string s)
  then canonicalLoop true s else s.

(** [http.Header.Add]: appends to the values stored under the canonical form
    of [key]. *)
Definition Header_Add (h : Header) (key value : string) : Header :=
  let key := CanonicalMIMEHeaderKey key in
  <[key := (default [] (h !! key) ++ [value])%list]> h.

(** An [http.ResponseWriter] that records what is done to it: the header
    map, the status codes passed to WriteHeader, the arguments of the Write
    calls and the number of flushes.  [wWriteResult] is what its Write
    returns and [wIsFlusher] whether it implements [http.Flusher]. *)
Record ResponseWriter := {
  wHeader : Header;
  wStatus : list Z;
  wBody : list string;
  wFlushes : nat;
  wWriteResult : option error;
  wIsFlusher : bool;
}.

Definition newRecorder : ResponseWriter :=
  {| wHeader := ∅; wStatus := []; wBody := []; wFlushes := 0%nat;
     wWriteResult := None; wIsFlusher := true |}.

Definition set_wHeader (h : Header) (w : ResponseWriter) : ResponseWriter :=
  {| wHeader := h; wStatus := wStatus w; wBody := wBody w; wFlushes := wFlushes w;
     wWriteResult := wWriteResult w; wIsFlusher := wIsFlusher w |}.

Definition WriteHeader (status : Z) (w : ResponseWriter) : ResponseWriter :=
  {| wHeader := wHeader w; wStatus := (wStatus w ++ [status])%list; wBody := wBody w;
     wFlushes := wFlushes w; wWriteResult := wWriteResult w;
     wIsFlusher := wIsFlusher w |}.

Definition Write (data : string) (w : ResponseWriter) : option error * ResponseWriter :=
  (wWriteResult w,
   {| wHeader := wHeader w; wStatus := wStatus w; wBody := (wBody w ++ [data])%list;
      wFlushes := wFlushes w; wWriteResult := wWriteResult w;
      wIsFlusher := wIsFlusher w |}).

Definition Flush (w : ResponseWriter) : ResponseWriter :=
  {| wHeader := wHeader w; wStatus := wStatus w; wBody := wBody w;
     wFlushes := S (wFlushes w); wWriteResult := wWriteResult w;
     wIsFlusher := wIsFlusher w |}.

End Http.
Export Http.

(** ** The resource stream relay *)

(** How a call ends: it returns, it never returns (the goroutine stays
    blocked), or it panics. *)
Inductive outcome (A : Type) :=
  | Returns (a : A)
  | Blocks
  | Panics (why : string).
Arguments Returns {A} a.
Arguments Blocks {A}.
Arguments Panics {A} why.

(** [callResourceClientResponseStream]: the interface [flushStream] reads
    from.  [S] is the state of the implementation, with all that decides
    what its methods answer. *)
Class callResourceClientResponseStream (S : Type) := {
  Recv : S -> outcome (option CallResourceResponse * option error) * S;
  Close : S -> outcome (option error) * S;
}.

(** A line of the plugin's logger. *)
Record LogLine := {
  logLevel : LogLevel;
  logMsg : string;
  logErr : error;
}.

Section FlushStream.

Context {S : Type} `{callResourceClientResponseStream S}.

(** The header loop of [flushStream].  The iteration order of a Go map is
    not specified; [map_fold] takes one. *)
Definition copyHeaders (headers : Header) (wh : Header) : Header :=
  map_fold (fun k values wh =>
              if decide (k = "Set-Cookie") then wh
              else foldl (fun wh v => Header_Add wh k v) wh values)
           wh headers.

(** The body of the loop of [flushStream] after a chunk was received. *)
Definition relayChunk (processedStreams : nat) (resp : CallResourceResponse)
    (w : ResponseWriter) (log : list LogLine) : ResponseWriter * list LogLine :=
  let w :=
    match crHeaders resp with
    | Some headers =>
        if (processedStreams =? 0)%nat then
          let headers :=
            match headers !! "Content-Type" with
            | None => <["Content-Type" := ["application/json"]]> headers
            | Some _ => headers
            end in
          WriteHeader (crStatus resp)
            (set_wHeader (copyHeaders headers (wHeader w)) w)
        else w
    | None => w
    end in
  let '(err, w) := Write (crBody resp) w in
  let log :=
    match err with
    | Some err =>
        (log ++ [{| logLevel := LvlError;
                    logMsg := "Failed to write resource response";
                    logErr := err |}])%list
    | None => log
    end in
  let w := if wIsFlusher w then Flush w else w in
  (w, log).

(** [flushStream].  The Go loop has no bound; [fuel] bounds the number of
    receives here, and [None] says it ran out. *)
Fixpoint flushStream_from (fuel processedStreams : nat) (stream : S)
    (w : ResponseWriter) (log : list LogLine)
  : option (outcome (option error) * S * ResponseWriter * list LogLine) :=
  match fuel with
  | O => None
  | Datatypes.S fuel =>
      let '(r, stream) := Recv stream in
      match r with
      | Blocks => Some (Blocks, stream, w, log)
      | Panics why => Some (Panics why, stream, w, log)
      | Returns (resp, err) =>
          if errors_Is_opt err io_EOF then
            if (processedStreams =? 0)%nat then
              Some (Returns (Some (errors_New "received empty resource response")),
                    stream, w, log)
            else Some (Returns None, stream, w, log)
          else
            match err with
            | Some err =>
                if (processedStreams =? 0)%nat then
                  Some (Returns (Some (errutil_Wrap
                          "failed to receive response from resource call" err)),
                        stream, w, log)
                else
                  let log :=
                    (log ++ [{| logLevel := LvlError;
                                logMsg := "Failed to receive response from resource call";
                                logErr := err |}])%list in
                  let '(c, stream) := Close stream in
                  Some (c, stream, w, log)
            | None =>
                match resp with
                | None => Some (Panics "nil pointer dereference", stream, w, log)
                | Some resp =>
                    let '(w, log) := relayChunk processedStreams resp w log in
                    flushStream_from fuel (Datatypes.S processedStreams) stream w log
                end
            end
      end
  end.

Definition flushStream (fuel : nat) (stream : S) (w : ResponseWriter)
  : option (outcome (option error) * S * ResponseWriter * list LogLine) :=
  flushStream_from fuel 0 stream w [].

End FlushStream.

(** [delivers s cs s']: receiving from [s] gives the chunks [cs], one after
    the other and without error, and leaves the stream as [s']. *)
Inductive delivers {S : Type} `{callResourceClientResponseStream S}
  : S -> list CallResourceResponse -> S -> Prop :=
  | delivers_nil (s : S) : delivers s [] s
  | delivers_cons (s s1 s2 : S) (c : CallResourceResponse)
      (cs : list CallResourceResponse) :
      Recv s = (Returns (Some c, None), s1) ->
      delivers s1 cs s2 ->
      delivers s (c :: cs) s2.

(** The writer and the log after the loop body ran on the chunks [cs], the
    first of them being chunk number [processedStreams]. *)
Fixpoint relayChunks (processedStreams : nat) (cs : list CallResourceResponse)
    (w : ResponseWriter) (log : list LogLine) : ResponseWriter * list LogLine :=
  match cs with
  | [] => (w, log)
  | c :: cs =>
      let '(w, log) := relayChunk processedStreams c w log in
      relayChunks (Datatypes.S processedStreams) cs w log
  end.

Definition receiveErrorLine (err : error) : LogLine :=
  {| logLevel := LvlError;
     logMsg := "Failed to receive response from resource call";
     logErr := err |}.

(** ** The resource response stream *)

(** An unbuffered Go channel of response chunks, seen from one goroutine:
    whether it was closed, the values of the senders that are blocked in a
    send, the number of receivers blocked in a receive, and the values
    handed over to such receivers so far. *)
Record chan := {
  ch_closed : bool;
  ch_sendq : list (option CallResourceResponse);
  ch_recvq : nat;
  ch_handed : list (option CallResourceResponse);
}.

Definition make_chan : chan :=
  {| ch_closed := false; ch_sendq := []; ch_recvq := 0%nat; ch_handed := [] |}.

(** A send can proceed when a receiver waits; on a closed channel it
    proceeds by panicking. *)
Definition chan_can_send (c : chan) : bool := ch_closed c || (0 <? ch_recvq c)%nat.

(** [c <- v]; [None] is the panic of a send on a closed channel. *)
Definition chan_send (v : option CallResourceResponse) (c : chan) : option chan :=
  if ch_closed c then None
  else Some {| ch_closed := false; ch_sendq := ch_sendq c;
               ch_recvq := pred (ch_recvq c);
               ch_handed := (ch_handed c ++ [v])%list |}.

Definition chan_can_recv (c : chan) : bool :=
  ch_closed c || negb (bool_decide (ch_sendq c = [])).

(** [v, ok := <-c]; [None] is [ok = false]. *)
Definition chan_recv (c : chan) : option (option CallResourceResponse) * chan :=
  if ch_closed c then (None, c)
  else match ch_sendq c with
       | v :: q => (Some v, {| ch_closed := false; ch_sendq := q;
                               ch_recvq := ch_recvq c; ch_handed := ch_handed c |})
       | [] => (None, c)
       end.

(** [close(c)]; [None] is the panic of closing a closed channel.  Blocked
    receivers are released, blocked senders panic in their own goroutines. *)
Definition chan_close (c : chan) : option chan :=
  if ch_closed c then None
  else Some {| ch_closed := true; ch_sendq := []; ch_recvq := 0%nat;
               ch_handed := ch_handed c |}.

(** The case a two-way [select] takes: when both can proceed Go chooses at
    random, which [pick] stands for. *)
Inductive selected := FirstCase | SecondCase | NoCase.

Definition select2 (pick : bool) (ready1 ready2 : bool) : selected :=
  match ready1, ready2 with
  | true, true => if pick then FirstCase else SecondCase
  | true, false => FirstCase
  | false, true => SecondCase
  | false, false => NoCase
  end.

(** [callResourceResponseStream].  The context is represented by what its
    Err method answers: [None] as long as it is not done. *)
Record callResourceResponseStream := {
  ctx : option error;
  stream : chan;
  closed : bool;
}.

(** [newCallResourceResponseStream] *)
Definition newCallResourceResponseStream (ctx : option error)
  : callResourceResponseStream :=
  {| ctx := ctx; stream := make_chan; closed := false |}.

Definition ctx_Done (s : callResourceResponseStream) : bool := bool_decide (ctx s <> None).

Definition set_stream (c : chan) (s : callResourceResponseStream)
  : callResourceResponseStream :=
  {| ctx := ctx s; stream := c; closed := closed s |}.

(** [callResourceResponseStream.Send] *)
Definition Send (pick : bool) (res : option CallResourceResponse)
    (s : callResourceResponseStream)
  : outcome (option error) * callResourceResponseStream :=
  if closed s then (Returns (Some (errors_New "cannot send to a closed stream")), s)
  else
    match select2 pick (ctx_Done s) (chan_can_send (stream s)) with
    | FirstCase => (Returns (Some (errors_New "cancelled")), s)
    | SecondCase =>
        match chan_send res (stream s) with
        | Some c => (Returns None, set_stream c s)
        | None => (Panics "send on closed channel", s)
        end
    | NoCase => (Blocks, s)
    end.

(** [callResourceResponseStream.Recv] *)
Definition Recv_stream (pick : bool) (s : callResourceResponseStream)
  : outcome (option CallResourceResponse * option error) * callResourceResponseStream :=
  match select2 pick (ctx_Done s) (chan_can_recv (stream s)) with
  | FirstCase => (Returns (None, ctx s), s)
  | SecondCase =>
      match chan_recv (stream s) with
      | (None, c) => (Returns (None, Some io_EOF), set_stream c s)
      | (Some res, c) => (Returns (res, None), set_stream c s)
      end
  | NoCase => (Blocks, s)
  end.

(** [callResourceResponseStream.Close] *)
Definition Close_stream (s : callResourceResponseStream)
  : outcome (option error) * callResourceResponseStream :=
  if closed s then (Returns (Some (errors_New "cannot close a closed stream")), s)
  else
    match chan_close (stream s) with
    | None => (Panics "close of closed channel", s)
    | Some c => (Returns None, {| ctx := ctx s; stream := c; closed := true |})
    end.

(** *** The stream among the other goroutines *)

(** The channel is private to the stream: only the selects of Send and Recv
    wait on it, and both also wait on the context.  So when the context
    ends, the goroutines blocked in them leave with the context case. *)
Definition release (c : chan) : chan :=
  {| ch_closed := ch_closed c; ch_sendq := []; ch_recvq := 0%nat;
     ch_handed := ch_handed c |}.

Definition park_sender (res : option CallResourceResponse) (c : chan) : chan :=
  {| ch_closed := ch_closed c; ch_sendq := (ch_sendq c ++ [res])%list;
     ch_recvq := ch_recvq c; ch_handed := ch_handed c |}.

Definition park_receiver (c : chan) : chan :=
  {| ch_closed := ch_closed c; ch_sendq := ch_sendq c;
     ch_recvq := S (ch_recvq c); ch_handed := ch_handed c |}.

(** What another goroutine does to a stream: it calls Send and stays
    blocked in it if it must, it calls Recv likewise, it calls Close, or it
    ends the context. *)
Inductive EnvAction :=
  | ActSend (res : option CallResourceResponse)
  | ActRecv
  | ActClose
  | ActCancel (err : error).

Definition applyAction (s : callResourceResponseStream) (a : EnvAction)
  : callResourceResponseStream :=
  match a with
  | ActSend res =>
      match Send true res s with
      | (Blocks, _) => set_stream (park_sender res (stream s)) s
      | (_, s') => s'
      end
  | ActRecv =>
      match Recv_stream true s with
      | (Blocks, _) => set_stream (park_receiver (stream s)) s
      | (_, s') => s'
      end
  | ActClose => (Close_stream s).2
  | ActCancel err =>
      match ctx s with
      | Some _ => s
      | None => {| ctx := Some err; stream := release (stream s); closed := closed s |}
      end
  end.

(** What holds of a stream from its creation on: the flag and the channel
    are closed together, and nobody stays blocked on the channel once it is
    closed or the context is done. *)
Definition wf (s : callResourceResponseStream) : Prop :=
  closed s = ch_closed (stream s)
  /\ (ch_closed (stream s) = true \/ ctx s <> None ->
      ch_sendq (stream s) = [] /\ ch_recvq (stream s) = 0%nat).

(** A stream with a schedule: before each attempt of the relay to receive,
    the other goroutines run the next batch of actions; [se_pick n] is the
    choice of the n-th select. *)
Record streamInEnv := {
  se_stream : callResourceResponseStream;
  se_sched : list (list EnvAction);
  se_pick : nat -> bool;
  se_selects : nat;
}.

Fixpoint recv_sched (pick : nat -> bool) (sched : list (list EnvAction)) (n : nat)
    (s : callResourceResponseStream)
  : outcome (option CallResourceResponse * option error) * streamInEnv :=
  match sched with
  | [] =>
      let '(r, s) := Recv_stream (pick n) s in
      (r, {| se_stream := s; se_sched := []; se_pick := pick; se_selects := S n |})
  | batch :: rest =>
      let '(r, s) := Recv_stream (pick n) (foldl applyAction s batch) in
      match r with
      | Blocks => recv_sched pick rest (S n) s
      | _ => (r, {| se_stream := s; se_sched := rest; se_pick := pick;
                    se_selects := S n |})
      end
  end.

#[global] Instance streamInEnv_stream : callResourceClientResponseStream streamInEnv := {
  Recv e := recv_sched (se_pick e) (se_sched e) (se_selects e) (se_stream e);
  Close e :=
    let '(r, s) := Close_stream (se_stream e) in
    (r, {| se_stream := s; se_sched := se_sched e; se_pick := se_pick e;
           se_selects := se_selects e |});
}.

(** ** Crash watch *)

(** What the select of [restartKilledProcess] receives, one entry per turn
    of the loop: the context is done ([err] is what ctx.Err() answers), or
    the ticker fires ([p] is the handle as it is at that moment and [start]
    what its Start answers if it is called). *)
Inductive WatchEvent :=
  | CtxDone (err : option error)
  | Tick (p : PluginV2) (start : option error).

(** [restartKilledProcess] on handle [p], with the events its select takes.
    The result is [Blocks] when the loop has consumed all of them and waits
    in its select. *)
Fixpoint restartKilledProcess (p : ptr) (events : list WatchEvent)
  : outcome (option error) * list Event :=
  match events with
  | [] => (Blocks, [])
  | CtxDone err :: _ =>
      match err with
      | Some err =>
          if negb (errors_Is err context_Canceled) then (Returns (Some err), [])
          else (Returns None, [])
      | None => (Returns None, [])
      end
  | Tick h start :: events =>
      if IsDecommissioned h then
        (Returns None, [EvLog LvlDebug "Plugin decommissioned"])
      else if negb (Exited h) then restartKilledProcess p events
      else
        let '(r, out) := restartKilledProcess p events in
        (r, [EvLog LvlDebug "Restarting plugin"; EvPlugin p CapStart]
            ++ match start with
               | Some _ => [EvLog LvlError "Failed to restart plugin"]
               | None => [EvLog LvlDebug "Plugin restarted"]
               end ++ out)%list
  end.

(** A turn of the loop after which [restartKilledProcess] returns. *)
Definition stopsWatch (e : WatchEvent) : bool :=
  match e with
  | CtxDone _ => true
  | Tick h _ => IsDecommissioned h
  end.

(** A tick that finds the handle exited and not decommissioned. *)
Definition restartDue (e : WatchEvent) : bool :=
  match e with
  | CtxDone _ => false
  | Tick h _ => negb (IsDecommissioned h) && Exited h
  end.

(** A tick on which a restart is due and the Start fails. *)
Definition restartFails (e : WatchEvent) : bool :=
  match e with
  | CtxDone _ => false
  | Tick h start => negb (IsDecommissioned h) && Exited h && bool_decide (start <> None)
  end.

(** What the loop returns when [e] ends it. *)
Definition watchResult (e : WatchEvent) : option error :=
  match e with
  | CtxDone (Some err) => if errors_Is err context_Canceled then None else Some err
  | _ => None
  end.

Definition occurrences (ev : Event) (out : list Event) : nat :=
  length (filter (fun x => x = ev) out).

(** ** Signed files (package [plugins], models.go) *)

(** [PluginBase], with the fields [IncludedInSignature] reads and those that
    identify the plugin.  [SignedFiles] is a [map[string]struct{}]; the nil
    map is [None]. *)
Record PluginBase := {
  pbType : string;
  pbName : string;
  pbId : string;
  pbPluginDir : string;
  pbIsCorePlugin : bool;
  pbSignedFiles : option (gset string);
}.

(** [PluginBase.IncludedInSignature] *)
Definition IncludedInSignature (p : PluginBase) (file : string) : bool :=
  (* permit Core plugin files *)
  if pbIsCorePlugin p then true
  else
    (* permit when no signed files (no MANIFEST) *)
    match pbSignedFiles p with
    | None => true
    | Some files => if decide (file ∈ files) then true else false
    end.

(** ** Registration, start-up and shutdown *)

(** Modelled from the spec: [PluginV2.Start] and [PluginV2.IsRenderer] are
    declared outside the source file.  Start is a capability call like the
    others; a renderer is a handle of type renderer. *)
Definition plugin_Start (p : ptr) : M (option error) :=
  do* emit (EvPlugin p CapStart) in
  gets (fun w => onStart (heap w p)).

Definition IsRenderer (p : PluginV2) : bool := bool_decide (Type_ p = "renderer").

(** [PluginManager.registeredPlugins]: the ids of the handles in the map. *)
Definition registeredPlugins (w : World) : gset string :=
  map_fold (fun _ p pluginsByID => {[ ID (heap w p) ]} ∪ pluginsByID) ∅
           (plugins (mgr w)).

(** [PluginManager.Renderer]: the first renderer met when ranging over the
    map. *)
Definition Renderer (w : World) : option ptr :=
  List.find (fun p => IsRenderer (heap w p)) (map snd (map_to_list (plugins (mgr w)))).

(** [PluginManager.register] *)
Definition register (p : ptr) : M (option error) :=
  let* pluginID := gets (fun w => ID (heap w p)) in
  let* existing := gets (fun w => plugins (mgr w) !! pluginID) in
  match existing with
  | Some _ =>
      ret (Some (errors_New ("plugin " +:+ pluginID +:+ " already registered")))
  | None =>
      do* modify_plugins (insert pluginID p) in
      do* emit (EvLog LvlDebug "Plugin registered") in
      ret None
  end.

(** [startPluginAndRestartKilledProcesses].  The goroutine it launches runs
    [restartKilledProcess] on the handle; the second component of the result
    lists the handles for which one was launched. *)
Definition startPluginAndRestartKilledProcesses (p : ptr)
  : M (option error * list ptr) :=
  let* err := plugin_Start p in
  match err with
  | Some err => ret (Some err, [])
  | None => ret (None, [p])
  end.

(** [PluginManager.start]; the result lists the crash watches launched. *)
Definition start (p : ptr) : M (list ptr) :=
  let* h := gets (fun w => heap w p) in
  if negb (IsManaged h) || negb (Backend h) then ret []
  else
    let* '(err, watches) := startPluginAndRestartKilledProcesses p in
    match err with
    | Some _ => do* emit (EvLog LvlError "Failed to start plugin") in ret watches
    | None => ret watches
    end.

(** [PluginManager.registerAndStart] *)
Definition registerAndStart (plugin : ptr) : M (option error * list ptr) :=
  let* err := register plugin in
  match err with
  | Some err => ret (Some err, [])
  | None =>
      let* id := gets (fun w => ID (heap w plugin)) in
      let* registered := gets (fun w => isRegistered w id) in
      if negb registered then
        ret (Some (errors_New ("plugin " +:+ id +:+ " is not registered")), [])
      else
        let* watches := start plugin in
        ret (None, watches)
  end.

(** The goroutine [stop] launches for one handle. *)
Definition stopOne (p : ptr) : M unit :=
  do* emit (EvLog LvlDebug "Stopping plugin") in
  let* err := plugin_Stop p in
  do* (match err with
       | Some _ => emit (EvLog LvlError "Failed to stop plugin")
       | None => ret tt
       end) in
  emit (EvLog LvlDebug "Plugin stopped").

(** [PluginManager.stop].  The goroutines, one per handle of the map, are
    run one after the other, in the iteration order of the map. *)
Definition stop : M unit :=
  fun w => (tt, foldl (fun w (kp : string * ptr) => (stopOne kp.2 w).2) w
                      (map_to_list (plugins (mgr w)))).

(** [PluginManager.Run], once its context is done; [err] is what ctx.Err()
    answers. *)
Definition Run (err : option error) : M (option error) :=
  do* stop in ret err.

(** [filepath.Join] *)
Fixpoint filepath_Join (elem : list string) : string :=
  match elem with
  | [] => EmptyString
  | e :: rest =>
      if decide (e = EmptyString) then filepath_Join rest
      else Filepath.Clean (Filepath.joinSep elem)
  end.

Section Loading.

(** [m.Cfg.StaticRootPath] *)
Variable StaticRootPath : string.
(** [backendplugin.PluginFactoryFunc] *)
Variable PluginFactoryFunc : Type.
(** [pluginLoader.LoadWithFactory] and [pluginLoader.LoadAll]; the handles
    they give are locations of the store. *)
Variable pluginLoader_LoadWithFactory : string -> PluginFactoryFunc -> M (ptr + error).
Variable pluginLoader_LoadAll : list string -> gset string -> M (list ptr + error).

(** [PluginManager.Register] *)
Definition Register (pluginID : string) (factory : PluginFactoryFunc)
  : M (option error) :=
  let* registered := gets (fun w => isRegistered w pluginID) in
  if registered then
    ret (Some (errors_New ("backend plugin " +:+ pluginID +:+ " already registered")))
  else
    let path := filepath_Join [StaticRootPath; "app/plugins/datasource"; pluginID] in
    let* loaded := pluginLoader_LoadWithFactory path factory in
    match loaded with
    | inr err => ret (Some err)
    | inl p => register p
    end.

(** The loop of [loadPlugins] over the loaded handles. *)
Fixpoint registerAndStartAll (loadedPlugins : list ptr) : M (option error * list ptr) :=
  match loadedPlugins with
  | [] => ret (None, [])
  | p :: rest =>
      let* '(err, watches) := registerAndStart p in
      match err with
      | Some err => ret (Some err, watches)
      | None =>
          let* '(err, watches') := registerAndStartAll rest in
          ret (err, (watches ++ watches')%list)
      end
  end.

(** [PluginManager.loadPlugins] *)
Definition loadPlugins (path : list string) : M (option error * list ptr) :=
  let* known := gets registeredPlugins in
  let* loaded := pluginLoader_LoadAll path known in
  match loaded with
  | inr err => ret (Some err, [])
  | inl loadedPlugins => registerAndStartAll loadedPlugins
  end.

End Loading.

(** ** Install *)

Definition grafanaComURL : string := "https://grafana.com/api/plugins".

(** [plugins.InstallOpts], declared outside the source file. *)
Record InstallOpts := {
  InstallDir : string;
  PluginRepoURL : string;
  PluginZipURL : string;
}.

(** [plugins.DuplicatePluginError] *)
Record DuplicatePluginError := {
  dupPluginID : string;
  ExistingPluginDir : string;
}.

(** What Install returns as its error: one of the error values above, or a
    DuplicatePluginError struct. *)
Inductive InstallError :=
  | InstallErr (err : error)
  | InstallDuplicate (d : DuplicatePluginError).

Section Install.

Variable pluginLoader_LoadAll : list string -> gset string -> M (list ptr + error).
(** [pluginInstaller.GetUpdateInfo], giving the PluginZipURL of the update
    information, and [pluginInstaller.Install] *)
Variable pluginInstaller_GetUpdateInfo : string -> string -> string -> M (string + error).
Variable pluginInstaller_Install :
  string -> string -> string -> string -> string -> M (option error).

(** The first half of [Install]: the checks on an installed handle, ending
    with the removal of the installed version.  [inl] carries pluginZipURL,
    [inr] what Install returns at once. *)
Definition prepareInstall (pluginID version repoURL : string)
  : M (string + InstallError) :=
  let* plugin := gets (fun w => Plugin w pluginID) in
  match plugin with
  | None => ret (inl EmptyString)
  | Some plugin =>
      let* h := gets (fun w => heap w plugin) in
      if negb (IsExternalPlugin h) then ret (inr (InstallErr ErrInstallCorePlugin))
      else if decide (InfoVersion h = version) then
        ret (inr (InstallDuplicate {| dupPluginID := ID h;
                                      ExistingPluginDir := PluginDir h |}))
      else
        (* get plugin update information to confirm if upgrading is possible *)
        let* updateInfo := pluginInstaller_GetUpdateInfo pluginID version repoURL in
        match updateInfo with
        | inr err => ret (inr (InstallErr err))
        | inl pluginZipURL =>
            (* remove existing installation of plugin *)
            let* err := Uninstall (ID h) in
            match err with
            | Some err => ret (inr (InstallErr err))
            | None => ret (inl pluginZipURL)
            end
        end
  end.

(** [PluginManager.Install]; the second component of the result lists the
    crash watches launched. *)
Definition Install (pluginID version : string) (opts : InstallOpts)
  : M (option InstallError * list ptr) :=
  let repoURL :=
    if decide (PluginRepoURL opts = EmptyString) then grafanaComURL
    else PluginRepoURL opts in
  let* prepared := prepareInstall pluginID version repoURL in
  match prepared with
  | inr err => ret (Some err, [])
  | inl pluginZipURL =>
      let* root := gets (fun w => Cfg_PluginsPath (mgr w)) in
      let installDir :=
        if decide (InstallDir opts = EmptyString) then root else InstallDir opts in
      let zipURL :=
        if decide (PluginZipURL opts = EmptyString) then pluginZipURL
        else PluginZipURL opts in
      let* err := pluginInstaller_Install pluginID version installDir zipURL repoURL in
      match err with
      | Some err => ret (Some (InstallErr err), [])
      | None =>
          let* '(err, watches) := loadPlugins pluginLoader_LoadAll [installDir] in
          ret (option_map InstallErr err, watches)
      end
  end.

End Install.

(** ** Invariants of the registry *)

(** Every key of the registry map is the id of the handle it maps to. *)
Definition keys_match (w : World) : Prop :=
  forall id p, plugins (mgr w) !! id = Some p -> ID (heap w p) = id.

(** The directory check of Uninstall lets the handle [p] through. *)
Definition insideRoot (w : World) (p : ptr) : Prop :=
  match Filepath.Rel (Cfg_PluginsPath (mgr w)) (PluginDir (heap w p)) with
  | Some path => Filepath.HasPrefix path "../" = false
  | None => False
  end.

(** A stream nobody waits on, open, with a live context. *)
Definition idle (s : callResourceResponseStream) : Prop :=
  closed s = false /\ ctx s = None /\ ch_closed (stream s) = false
  /\ ch_sendq (stream s) = [] /\ ch_recvq (stream s) = 0%nat.

(** The events a computation adds to the trace of [w]. *)
Definition emitted {A} (c : M A) (w : World) : list Event :=
  drop (length (trace w)) (trace (c w).2).

(** ** Sample worlds *)

Module Samples.

(** An external, managed backend data source installed under the plugins
    root, whose backend answers every call without error. *)
Definition handleA : PluginV2 :=
  {| ID := "A"; Type_ := "datasource"; Backend := true; managed := true;
     Class := External; PluginDir := "/var/lib/grafana/plugins/A";
     InfoVersion := "1.0"; decommissioned := false; exited := false;
     onQueryData := fun _ => (Some emptyQueryDataResponse, None);
     onCheckHealth := fun _ => (Some {| chStatus := 1; chMessage := "OK" |}, None);
     onCollectMetrics := (Some {| cmPrometheusMetrics := "up 1" |}, None);
     onStart := None; onStop := None; onDecommission := None |}.

(** [handleA] installed in directory [dir]. *)
Definition handleIn (dir : string) : PluginV2 :=
  {| ID := "A"; Type_ := "datasource"; Backend := true; managed := true;
     Class := External; PluginDir := dir;
     InfoVersion := "1.0"; decommissioned := false; exited := false;
     onQueryData := onQueryData handleA; onCheckHealth := onCheckHealth handleA;
     onCollectMetrics := onCollectMetrics handleA;
     onStart := None; onStop := None; onDecommission := None |}.

(** [handleA] with a backend that fails queries and health checks with
    [err]. *)
Definition handleFailing (err : error) : PluginV2 :=
  {| ID := "A"; Type_ := "datasource"; Backend := true; managed := true;
     Class := External; PluginDir := PluginDir handleA;
     InfoVersion := "1.0"; decommissioned := false; exited := false;
     onQueryData := fun _ => (None, Some err);
     onCheckHealth := fun _ => (None, Some err);
     onCollectMetrics := onCollectMetrics handleA;
     onStart := None; onStop := None; onDecommission := None |}.

(** [handleA] after its process has exited. *)
Definition handleExited : PluginV2 :=
  {| ID := "A"; Type_ := "datasource"; Backend := true; managed := true;
     Class := External; PluginDir := PluginDir handleA;
     InfoVersion := "1.0"; decommissioned := false; exited := true;
     onQueryData := onQueryData handleA; onCheckHealth := onCheckHealth handleA;
     onCollectMetrics := onCollectMetrics handleA;
     onStart := None; onStop := None; onDecommission := None |}.

Definition manager (ps : gmap string ptr) : PluginManager :=
  {| Cfg_PluginsPath := "/var/lib/grafana/plugins";
     requestValidator := fun _ _ => None;
     pluginInstaller_Uninstall := fun _ => None;
     plugins := ps |}.

(** The same manager with a validator that rejects every call. *)
Definition managerDenying (ps : gmap string ptr) : PluginManager :=
  {| Cfg_PluginsPath := "/var/lib/grafana/plugins";
     requestValidator := fun _ _ => Some (errors_New "not on the whitelist");
     pluginInstaller_Uninstall := fun _ => None;
     plugins := ps |}.

(** A world whose registry holds handle [h] under id A. *)
Definition worldWith (h : PluginV2) : World :=
  {| mgr := manager {[ "A" := 1%nat ]}; heap := fun _ => h; trace := [] |}.

(** A world with an empty registry. *)
Definition emptyWorld : World :=
  {| mgr := manager ∅; heap := fun _ => handleA; trace := [] |}.

Definition emptyWorldDenying : World :=
  {| mgr := managerDenying ∅; heap := fun _ => handleA; trace := [] |}.

Definition PluginTypes : list PluginType := ["datasource"; "panel"; "app"; "renderer"].

Definition ctxA : PluginContext :=
  {| PluginID := "A"; DataSourceInstanceSettings_ := None |}.

Definition queryA : QueryDataRequest :=
  {| qdPluginContext := ctxA; qdQueries := [] |}.

Definition getRequest : Request :=
  {| reqMethod := "GET";
     reqURL := {| urlPath := "/"; urlRawQuery := EmptyString; urlString := "/" |};
     reqHeader := ∅; reqBody := inl EmptyString |}.

(** Collaborators of CallResource that accept everything. *)
Definition parseAny (s : string) : URL + error :=
  inl {| urlPath := s; urlRawQuery := EmptyString; urlString := s |}.
Definition noCookies (_ : string) : list string + error := inl [].
Definition keepRequest (r : Request) (_ : list string) : Request := r.
Definition sameRequest (r : Request) : Request := r.
Definition relayOk (_ : ptr) (_ : CallResourceRequest) : M (option error) := ret None.

(** Chunks of a resource response. *)
Definition bodyChunk (body : string) : CallResourceResponse :=
  {| crStatus := 0; crHeaders := None; crBody := body |}.

Definition headerChunk (headers : Header) (body : string) : CallResourceResponse :=
  {| crStatus := 200; crHeaders := Some headers; crBody := body |}.

(** A fresh stream on a live context, with the given schedule; when two
    cases of a select can proceed, the first one in the source is taken
    if [pick] says so. *)
Definition scheduled (pick : bool) (sched : list (list EnvAction)) : streamInEnv :=
  {| se_stream := newCallResourceResponseStream None;
     se_sched := sched; se_pick := fun _ => pick; se_selects := 0%nat |}.

(** The status, the returned error and what reached the writer and the
    log, without the stream. *)
Definition observed
    (r : option (outcome (option error) * streamInEnv * ResponseWriter * list LogLine))
  : option (outcome (option error) * ResponseWriter * list LogLine) :=
  match r with
  | Some (o, _, w, log) => Some (o, w, log)
  | None => None
  end.

(** [handleA] as a core plugin, and with a backend whose Stop fails. *)
Definition handleCore : PluginV2 :=
  {| ID := "A"; Type_ := "datasource"; Backend := true; managed := true;
     Class := Core; PluginDir := "/usr/share/grafana/public/app/plugins/datasource/A";
     InfoVersion := "1.0"; decommissioned := false; exited := false;
     onQueryData := onQueryData handleA; onCheckHealth := onCheckHealth handleA;
     onCollectMetrics := onCollectMetrics handleA;
     onStart := None; onStop := None; onDecommission := None |}.



(** A signed external plugin whose manifest lists [files]. *)
Definition signedPlugin (files : gset string) : PluginBase :=
  {| pbType := "datasource"; pbName := "A"; pbId := "A";
     pbPluginDir := "/var/lib/grafana/plugins/A"; pbIsCorePlugin := false;
     pbSignedFiles := Some files |}.

(** A panel without backend, with id B. *)
Definition handleB : PluginV2 :=
  {| ID := "B"; Type_ := "panel"; Backend := false; managed := false;
     Class := External; PluginDir := "/var/lib/grafana/plugins/B";
     InfoVersion := "2.1"; decommissioned := false; exited := false;
     onQueryData := onQueryData handleA; onCheckHealth := onCheckHealth handleA;
     onCollectMetrics := onCollectMetrics handleA;
     onStart := None; onStop := None; onDecommission := None |}.

(** A store with [handleB] at location 2 and [handleA] everywhere else, and
    an empty registry. *)
Definition twoHandles : World :=
  {| mgr := manager ∅;
     heap := fun q => if decide (q = 2%nat) then handleB else handleA;
     trace := [] |}.

(** Loader and installer collaborators with fixed answers. *)
Definition loadHandles (ps : list ptr) (_ : list string) (_ : gset string)
  : M (list ptr + error) := ret (inl ps).
Definition loadWithFactory (p : ptr) (_ : string) (_ : unit) : M (ptr + error) :=
  ret (inl p).
Definition updateInfo (r : string + error) (_ _ _ : string) : M (string + error) :=
  ret r.
Definition installAnswers (r : option error) (_ _ _ _ _ : string) : M (option error) :=
  ret r.

Definition noOpts : InstallOpts :=
  {| InstallDir := EmptyString; PluginRepoURL := EmptyString;
     PluginZipURL := EmptyString |}.

End Samples.

(** * Properties *)

(** ** Sanity checks of the path and header-key functions *)

Example Clean_dots : Filepath.Clean "/a/./b/../c//d/" = "/a/c/d".
Proof. reflexivity. Qed.

Example Rel_child : Filepath.Rel "/a/b" "/a/b/c/d" = Some "c/d".
Proof. reflexivity. Qed.

Example Rel_up2 : Filepath.Rel "/a/b/c/d" "/a/b" = Some "../..".
Proof. reflexivity. Qed.

Example Rel_sibling : Filepath.Rel "ab/cd" "ab/cde" = Some "../cde".
Proof. reflexivity. Qed.

Example Rel_mixed : Filepath.Rel "a" "/a" = None.
Proof. reflexivity. Qed.

Example Rel_dotdot_base : Filepath.Rel ".." "a" = None.
Proof. reflexivity. Qed.

Example Rel_from_dot : Filepath.Rel "." "a/b" = Some "a/b".
Proof. reflexivity. Qed.

Example Rel_root : Filepath.Rel "/" "/a" = Some "a".
Proof. reflexivity. Qed.

Example canonical_lower : CanonicalMIMEHeaderKey "set-cookie" = "Set-Cookie".
Proof. reflexivity. Qed.

Example canonical_mixed : CanonicalMIMEHeaderKey "cONTENT-tYPE" = "Content-Type".
Proof. reflexivity. Qed.

Example canonical_space : CanonicalMIMEHeaderKey "set cookie" = "set cookie".
Proof. reflexivity. Qed.

(** ** Running the state-passing code *)

Arguments Plugin : simpl never.
Arguments isRegistered : simpl never.

Ltac run :=
  unfold QueryData, CollectMetrics, CheckHealth, CallResource, callResourceInternal,
    handleCallResourceError, Uninstall, unregisterAndStop, installer_Uninstall,
    plugin_QueryData, plugin_CheckHealth, plugin_CollectMetrics, plugin_Stop,
    plugin_Decommission, Instrument, validate, modify_plugins, store, emit, gets,
    bind, ret;
  simpl.

(** The lookups read the registry map and the handles, not the trace. *)
Lemma Plugin_trace (w : World) (t : list Event) (pluginID : string) :
  Plugin {| mgr := mgr w; heap := heap w; trace := t |} pluginID = Plugin w pluginID.
Proof. reflexivity. Qed.

(** A handle is absent for the dispatcher when its id is not a key of the
    registry map, or when the handle under that key is decommissioned. *)
Definition absent (w : World) (pluginID : string) : Prop :=
  plugins (mgr w) !! pluginID = None
  \/ exists p, plugins (mgr w) !! pluginID = Some p
               /\ IsDecommissioned (heap w p) = true.

Lemma Plugin_absent (w : World) (pluginID : string) :
  absent w pluginID <-> Plugin w pluginID = None.
Proof.
  unfold absent, Plugin. split.
  - intros [-> | (p & -> & ->)]; reflexivity.
  - destruct (plugins (mgr w) !! pluginID) as [p|] eqn:E; [|auto].
    destruct (IsDecommissioned (heap w p)) eqn:D; [|discriminate].
    intros _. right. eauto.
Qed.

Lemma Plugin_decommissioned (w : World) (pluginID : string) (p : ptr) :
  plugins (mgr w) !! pluginID = Some p ->
  IsDecommissioned (heap w p) = true ->
  Plugin w pluginID = None.
Proof. intros. apply Plugin_absent. right. eauto. Qed.

Lemma PluginByType_decommissioned (w : World) (pluginID : string) (t : PluginType)
    (p : ptr) :
  plugins (mgr w) !! pluginID = Some p ->
  IsDecommissioned (heap w p) = true ->
  PluginByType w pluginID t = None.
Proof. unfold PluginByType. intros -> ->. reflexivity. Qed.

(** ** The list of handles *)

Lemma foldl_select {A B} (P : A -> bool) (f : A -> B) (l : list A) (acc : list B) :
  foldl (fun acc x => if P x then (acc ++ [f x])%list else acc) acc l
  = (acc ++ map f (filter (fun x => P x = true) l))%list.
Proof.
  revert acc. induction l as [|x l IH]; intros acc; simpl.
  - by rewrite app_nil_r.
  - rewrite IH. rewrite filter_cons. destruct (P x) eqn:E.
    + rewrite decide_True by done. simpl. by rewrite <- app_assoc.
    + rewrite decide_False by (by intros ?). done.
Qed.

(** Which handles [Plugins] lists: those of the registry map whose type was
    requested.  The decommissioned flag plays no part. *)
Lemma elem_of_Plugins (PluginTypes : list PluginType) (w : World)
    (pluginTypes : list PluginType) (q : ptr) :
  q ∈ Plugins PluginTypes w pluginTypes
  <-> exists id, plugins (mgr w) !! id = Some q
              /\ Type_ (heap w q)
                 ∈ (if (length pluginTypes =? 0)%nat then PluginTypes else pluginTypes).
Proof.
  unfold Plugins.
  rewrite (foldl_select
             (fun kp : string * ptr => bool_decide (Type_ (heap w kp.2) ∈ _))
             (fun kp => kp.2)).
  simpl. rewrite list_elem_of_fmap. split.
  - intros ([id q'] & -> & Hin). apply list_elem_of_filter in Hin as [HP Hin].
    apply elem_of_map_to_list in Hin. apply bool_decide_eq_true in HP.
    exists id. split; [done|]. simpl in HP. by apply elem_of_list_to_set in HP.
  - intros (id & Hid & Ht). exists (id, q). split; [done|].
    apply list_elem_of_filter. split.
    + apply bool_decide_eq_true. simpl. by apply elem_of_list_to_set.
    + by apply elem_of_map_to_list.
Qed.

(** C1.  A handle that is in the registry map but decommissioned is absent
    for [Plugin] and for [PluginByType], as the claim says; [Plugins] does
    not look at the flag and lists it, both when its type is requested and
    when no type is given. *)
Theorem Plugins_lists_decommissioned_handle :
  let w := Samples.worldWith (set_decommissioned true Samples.handleA) in
  plugins (mgr w) !! "A" = Some 1%nat
  /\ IsDecommissioned (heap w 1%nat) = true
  /\ Plugin w "A" = None
  /\ PluginByType w "A" "datasource" = None
  /\ Plugins Samples.PluginTypes w ["datasource"] = [1%nat]
  /\ Plugins Samples.PluginTypes w [] = [1%nat].
Proof. vm_compute. repeat split; reflexivity. Qed.

(** A decommissioned handle whose type is requested is always listed. *)
Lemma Plugins_ignores_decommissioned (PluginTypes : list PluginType) (w : World)
    (id : string) (p : ptr) (pluginTypes : list PluginType) :
  plugins (mgr w) !! id = Some p ->
  IsDecommissioned (heap w p) = true ->
  Type_ (heap w p) ∈ pluginTypes ->
  p ∈ Plugins PluginTypes w pluginTypes.
Proof.
  intros Hp _ Ht. apply elem_of_Plugins. exists id. split; [done|].
  destruct pluginTypes; [by apply elem_of_nil in Ht | done].
Qed.

(** ** Absent handles in the dispatcher *)

(** C8.  For an absent plugin id (not registered, or decommissioned)
    QueryData returns the empty response and no error, CollectMetrics fails
    with NotRegistered, and CheckHealth fails with NotRegistered once the
    validator has accepted the call; none of them changes the registry or
    calls a plugin. *)
Theorem absent_QueryData_lenient_others_fail (w : World) (req : QueryDataRequest)
    (pluginID : string) (pCtx : PluginContext) :
  absent w (PluginID (qdPluginContext req)) ->
  absent w pluginID ->
  absent w (PluginID pCtx) ->
  QueryData req w = ((Some emptyQueryDataResponse, None), w)
  /\ CollectMetrics pluginID w = ((None, Some ErrPluginNotRegistered), w)
  /\ (requestValidator (mgr w) (dataSourceURL pCtx) None = None ->
      CheckHealth pCtx w
      = ((None, Some ErrPluginNotRegistered),
         {| mgr := mgr w; heap := heap w;
            trace := (trace w ++ [EvValidate (dataSourceURL pCtx)])%list |})).
Proof.
  intros Hq Hm Hh.
  apply Plugin_absent in Hq. apply Plugin_absent in Hm. apply Plugin_absent in Hh.
  repeat split.
  - run. by rewrite Hq.
  - run. by rewrite Hm.
  - intros Hv. run. rewrite Hv, Plugin_trace, Hh. done.
Qed.

Lemma absent_QueryData_lenient_others_fail_witness :
  let w := Samples.worldWith (set_decommissioned true Samples.handleA) in
  QueryData Samples.queryA w = ((Some emptyQueryDataResponse, None), w)
  /\ CollectMetrics "A" w = ((None, Some ErrPluginNotRegistered), w)
  /\ (requestValidator (mgr w) (dataSourceURL Samples.ctxA) None = None ->
      CheckHealth Samples.ctxA w
      = ((None, Some ErrPluginNotRegistered),
         {| mgr := mgr w; heap := heap w;
            trace := (trace w ++ [EvValidate (dataSourceURL Samples.ctxA)])%list |})).
Proof.
  apply (absent_QueryData_lenient_others_fail
           (Samples.worldWith (set_decommissioned true Samples.handleA))
           Samples.queryA "A" Samples.ctxA);
    right; exists 1%nat; split; reflexivity.
Defined.

(** ** Uninstall *)

(** C10.  When the registry map holds a decommissioned handle for an id,
    Uninstall of that id fails with NotInstalled and leaves the world as it
    was: the map entry stays, nothing is stopped and the installer is not
    called. *)
Theorem Uninstall_decommissioned_NotInstalled (w : World) (pluginID : string)
    (p : ptr) :
  plugins (mgr w) !! pluginID = Some p ->
  IsDecommissioned (heap w p) = true ->
  Uninstall pluginID w = (Some ErrPluginNotInstalled, w)
  /\ plugins (mgr (Uninstall pluginID w).2) !! pluginID = Some p.
Proof.
  intros Hp Hd. pose proof (Plugin_decommissioned w pluginID p Hp Hd) as HP.
  assert (Uninstall pluginID w = (Some ErrPluginNotInstalled, w)) as ->.
  { run. by rewrite HP. }
  done.
Qed.

Lemma Uninstall_decommissioned_NotInstalled_witness :
  let w := Samples.worldWith (set_decommissioned true Samples.handleA) in
  Uninstall "A" w = (Some ErrPluginNotInstalled, w)
  /\ plugins (mgr (Uninstall "A" w).2) !! "A" = Some 1%nat.
Proof.
  apply (Uninstall_decommissioned_NotInstalled
           (Samples.worldWith (set_decommissioned true Samples.handleA)) "A" 1%nat);
    reflexivity.
Defined.

(** Such a world is reached when the Stop of [unregisterAndStop] fails: the
    handle is decommissioned in place and its entry stays in the map. *)
Lemma unregisterAndStop_stop_fails (w : World) (id : string) (p : ptr) (err : error) :
  plugins (mgr w) !! id = Some p ->
  onDecommission (heap w p) = None ->
  onStop (heap w p) = Some err ->
  let w' := (unregisterAndStop p w).2 in
  (unregisterAndStop p w).1 = Some err
  /\ plugins (mgr w') !! id = Some p
  /\ IsDecommissioned (heap w' p) = true.
Proof.
  intros Hp Hd Hs. run. rewrite Hd. simpl.
  rewrite decide_True by done. simpl. rewrite Hs. simpl.
  rewrite decide_True by done. done.
Qed.

(** When the directory check fires, Uninstall fails with OutsideOfPluginDir
    and leaves the world as it was. *)
Lemma Uninstall_outside (w : World) (pluginID : string) (p : ptr) :
  Plugin w pluginID = Some p ->
  IsExternalPlugin (heap w p) = true ->
  match Filepath.Rel (Cfg_PluginsPath (mgr w)) (PluginDir (heap w p)) with
  | None => True
  | Some path => Filepath.HasPrefix path "../" = true
  end ->
  Uninstall pluginID w = (Some ErrUninstallOutsideOfPluginDir, w).
Proof.
  intros HP He Hrel. run. rewrite HP, He. simpl.
  destruct (Filepath.Rel _ _) as [path|]; [|done].
  change (".." +:+ String Filepath.Separator EmptyString) with "../".
  by rewrite Hrel.
Qed.

(** C3.  The directory check of Uninstall lets two directories through that
    are not inside the plugins root.  For a handle installed in the parent
    of the root, [filepath.Rel] gives [..], which does not start with [../]:
    the handle is decommissioned, stopped and removed from the registry and
    the installer is asked to remove the parent directory.  The same happens
    for a handle whose directory is the root itself ([Rel] gives [.]).  One
    level further up ([../..]) the check fires. *)
Theorem Uninstall_parent_of_root_not_rejected :
  let w := Samples.worldWith (Samples.handleIn "/var/lib/grafana") in
  let w' := Samples.worldWith (Samples.handleIn "/var/lib/grafana/plugins") in
  let w'' := Samples.worldWith (Samples.handleIn "/var/lib") in
  Filepath.Rel (Cfg_PluginsPath (mgr w)) "/var/lib/grafana" = Some ".."
  /\ (Uninstall "A" w).1 = None
  /\ trace (Uninstall "A" w).2
     = [EvLog LvlDebug "Stopping plugin process"; EvPlugin 1%nat CapDecommission;
        EvPlugin 1%nat CapStop; EvLog LvlDebug "Plugin unregistered";
        EvInstallerUninstall "/var/lib/grafana"]
  /\ plugins (mgr (Uninstall "A" w).2) !! "A" = None
  /\ IsDecommissioned (heap (Uninstall "A" w).2 1%nat) = true
  /\ (Uninstall "A" w').1 = None
  /\ last (trace (Uninstall "A" w').2)
     = Some (EvInstallerUninstall "/var/lib/grafana/plugins")
  /\ Uninstall "A" w'' = (Some ErrUninstallOutsideOfPluginDir, w'').
Proof.
  repeat split; vm_compute; reflexivity.
Qed.

(** ** Error policy of QueryData and CheckHealth *)

(** C7, as amended.  When the plugin call fails with [e]: if the chain of
    [e] contains the NotImplemented or the Unavailable sentinel ([errors.Is];
    in particular when [e] is that sentinel), [e] is returned as it is.
    Otherwise QueryData returns [e] wrapped with its message, and CheckHealth
    returns the HealthCheckFailed sentinel wrapped with its message, in
    which [e] does not appear. *)
Theorem sentinels_pass_other_errors_wrapped (w : World) (p : ptr)
    (req : QueryDataRequest) (pCtx : PluginContext)
    (r1 : option QueryDataResponse) (r2 : option CheckHealthResult) (e1 e2 : error) :
  (Plugin w (PluginID (qdPluginContext req)) = Some p ->
   onQueryData (heap w p) req = (r1, Some e1) ->
   (QueryData req w).1
   = (None,
      Some (if errors_Is e1 ErrMethodNotImplemented || errors_Is e1 ErrPluginUnavailable
            then e1 else errutil_Wrap "failed to query data" e1)))
  /\ (requestValidator (mgr w) (dataSourceURL pCtx) None = None ->
      Plugin w (PluginID pCtx) = Some p ->
      onCheckHealth (heap w p) pCtx = (r2, Some e2) ->
      (CheckHealth pCtx w).1
      = (None,
         Some (if errors_Is e2 ErrMethodNotImplemented || errors_Is e2 ErrPluginUnavailable
               then e2
               else errutil_Wrap "failed to check plugin health" ErrHealthCheckFailed))).
Proof.
  split.
  - intros HP Hq. run. rewrite HP. simpl. rewrite Hq.
    destruct (errors_Is e1 ErrMethodNotImplemented); [done|].
    destruct (errors_Is e1 ErrPluginUnavailable); done.
  - intros Hv HP Hc. run. rewrite Hv, Plugin_trace, HP. simpl. rewrite Hc.
    destruct (errors_Is e2 ErrMethodNotImplemented); [done|].
    destruct (errors_Is e2 ErrPluginUnavailable); done.
Qed.

Lemma sentinels_pass_other_errors_wrapped_witness :
  let w := Samples.worldWith (Samples.handleFailing ErrPluginUnavailable) in
  (QueryData Samples.queryA w).1 = (None, Some ErrPluginUnavailable)
  /\ (CheckHealth Samples.ctxA w).1 = (None, Some ErrPluginUnavailable).
Proof.
  pose proof (sentinels_pass_other_errors_wrapped
                (Samples.worldWith (Samples.handleFailing ErrPluginUnavailable))
                1%nat Samples.queryA Samples.ctxA None None
                ErrPluginUnavailable ErrPluginUnavailable) as [Hq Hc].
  split.
  - apply Hq; reflexivity.
  - apply Hc; reflexivity.
Defined.

(** C7, as stated, fails on both operations.  In CheckHealth an underlying
    error other than the sentinels is not wrapped: it is dropped.  In
    QueryData an error that is not a sentinel by value but wraps one is
    returned as it is, without the message of the operation. *)
Lemma other_errors_not_always_wrapped :
  ~ (forall e : error,
       e <> ErrMethodNotImplemented -> e <> ErrPluginUnavailable ->
       exists msg,
         (CheckHealth Samples.ctxA (Samples.worldWith (Samples.handleFailing e))).1.2
         = Some (errutil_Wrap msg e))
  /\ ~ (forall e : error,
       e <> ErrMethodNotImplemented -> e <> ErrPluginUnavailable ->
       exists msg,
         (QueryData Samples.queryA (Samples.worldWith (Samples.handleFailing e))).1.2
         = Some (errutil_Wrap msg e)).
Proof.
  split.
  - intros H. destruct (H (errors_New "boom")) as [msg Hm]; [done|done|].
    vm_compute in Hm. discriminate.
  - intros H.
    destruct (H (fmt_Errorf_w "rpc" ErrPluginUnavailable)) as [msg Hm]; [done|done|].
    vm_compute in Hm. discriminate.
Qed.

(** ** CallResource for an absent handle *)

Section CallResourceAbsent.

Variable url_Parse : string -> URL + error.
Variable json_Unmarshal_keepCookies : string -> list string + error.
Variable ClearCookieHeader : Request -> list string -> Request.
Variable PrepareProxyRequest : Request -> Request.
Variable relay : ptr -> CallResourceRequest -> M (option error).

Lemma callResourceInternal_absent (w : World) (req : Request) (pCtx : PluginContext) :
  absent w (PluginID pCtx) ->
  callResourceInternal json_Unmarshal_keepCookies ClearCookieHeader
    PrepareProxyRequest relay req pCtx w
  = (Some ErrPluginNotRegistered, w).
Proof. intros Ha. apply Plugin_absent in Ha. run. by rewrite Ha. Qed.

(** C2, as amended.  For an absent plugin id (not registered, or
    decommissioned) CallResource first calls the request validator, once.
    If the validator rejects the call, the answer is 403 Access denied.
    If it accepts and the URL does not parse, the parse error is answered.
    Otherwise callResourceInternal fails with NotRegistered, answered as
    500.  These two events are all that happens: no plugin is called, the
    relay does not run and the registry and the handles are unchanged. *)
Theorem CallResource_absent_validates_then_NotRegistered (w : World)
    (pCtx : PluginContext) (req : Request) (path : string) :
  absent w (PluginID pCtx) ->
  let rawURL :=
    if negb (bool_decide (urlRawQuery (reqURL req) = EmptyString))
    then path +:+ "?" +:+ urlRawQuery (reqURL req) else path in
  exists ev : Event,
    CallResource url_Parse json_Unmarshal_keepCookies ClearCookieHeader
      PrepareProxyRequest relay pCtx req path w
    = (tt, {| mgr := mgr w; heap := heap w;
              trace := (trace w ++ [EvValidate (dataSourceURL pCtx); ev])%list |})
    /\ match requestValidator (mgr w) (dataSourceURL pCtx) (Some req) with
       | Some err => ev = EvJsonApiErr 403 "Access denied" err
       | None =>
           match url_Parse rawURL with
           | inr err => exists status message, ev = EvJsonApiErr status message err
           | inl _ => ev = EvJsonApiErr 500 "Failed to call resource"
                                        ErrPluginNotRegistered
           end
       end.
Proof.
  intros Ha rawURL. apply Plugin_absent in Ha.
  unfold CallResource, validate, bind, gets, emit. simpl.
  destruct (requestValidator (mgr w) (dataSourceURL pCtx) (Some req)) as [err|].
  { eexists. split; [|reflexivity]. simpl. by rewrite <- app_assoc. }
  fold rawURL. destruct (url_Parse rawURL) as [u|err].
  - unfold callResourceInternal, bind, gets, ret. rewrite Plugin_trace, Ha. simpl.
    unfold handleCallResourceError, emit. simpl.
    eexists. split; [|reflexivity]. simpl. by rewrite <- app_assoc.
  - unfold handleCallResourceError, emit.
    destruct (errors_Is err ErrPluginUnavailable);
      [|destruct (errors_Is err ErrMethodNotImplemented)];
      (eexists; split; [simpl; by rewrite <- app_assoc | eauto]).
Qed.

End CallResourceAbsent.

Lemma CallResource_absent_validates_then_NotRegistered_witness :
  exists ev : Event,
    CallResource Samples.parseAny Samples.noCookies Samples.keepRequest
      Samples.sameRequest Samples.relayOk Samples.ctxA Samples.getRequest "/x"
      Samples.emptyWorld
    = (tt, {| mgr := mgr Samples.emptyWorld; heap := heap Samples.emptyWorld;
              trace := [EvValidate EmptyString; ev] |})
    /\ ev = EvJsonApiErr 500 "Failed to call resource" ErrPluginNotRegistered.
Proof.
  apply (CallResource_absent_validates_then_NotRegistered
           Samples.parseAny Samples.noCookies Samples.keepRequest
           Samples.sameRequest Samples.relayOk Samples.emptyWorld
           Samples.ctxA Samples.getRequest "/x").
  left. reflexivity.
Defined.

(** C2, as stated, fails: for an id that is not registered the validator is
    called before the lookup, and when it rejects the call the answer is
    Access denied, not NotRegistered. *)
Lemma CallResource_unregistered_calls_validator :
  Plugin Samples.emptyWorld "A" = None
  /\ trace (CallResource Samples.parseAny Samples.noCookies Samples.keepRequest
              Samples.sameRequest Samples.relayOk Samples.ctxA Samples.getRequest "/x"
              Samples.emptyWorld).2
     = [EvValidate EmptyString;
        EvJsonApiErr 500 "Failed to call resource" ErrPluginNotRegistered]
  /\ Plugin Samples.emptyWorldDenying "A" = None
  /\ trace (CallResource Samples.parseAny Samples.noCookies Samples.keepRequest
              Samples.sameRequest Samples.relayOk Samples.ctxA Samples.getRequest "/x"
              Samples.emptyWorldDenying).2
     = [EvValidate EmptyString;
        EvJsonApiErr 403 "Access denied" (errors_New "not on the whitelist")].
Proof. repeat split; vm_compute; reflexivity. Qed.

(** ** The relay loop *)

Section FlushStreamFacts.

Context {S : Type} `{callResourceClientResponseStream S}.

(** As long as chunks arrive the loop goes on; after [cs] it is where a
    fresh loop would be with the counter advanced. *)
Lemma flushStream_from_delivers (s s1 : S) (cs : list CallResourceResponse) :
  delivers s cs s1 ->
  forall (fuel k : nat) (w : ResponseWriter) (log : list LogLine),
    flushStream_from (length cs + fuel) k s w log
    = flushStream_from fuel (k + length cs) s1
        (relayChunks k cs w log).1 (relayChunks k cs w log).2.
Proof.
  induction 1 as [s|s s1 s2 c cs HR Hd IH]; intros fuel k w log.
  - simpl. by rewrite Nat.add_0_r.
  - simpl. rewrite HR. simpl.
    destruct (relayChunk k c w log) as [w1 log1] eqn:E.
    rewrite IH. simpl. by rewrite Nat.add_succ_r.
Qed.

(** The three ways the loop ends on a receive that gives an error. *)
Lemma flushStream_from_error (s s1 : S) (r : option CallResourceResponse)
    (e : error) (fuel k : nat) (w : ResponseWriter) (log : list LogLine) :
  Recv s = (Returns (r, Some e), s1) ->
  flushStream_from (Datatypes.S fuel) k s w log
  = if errors_Is e io_EOF then
      Some (Returns (if (k =? 0)%nat
                     then Some (errors_New "received empty resource response")
                     else None), s1, w, log)
    else if (k =? 0)%nat then
      Some (Returns (Some (errutil_Wrap
              "failed to receive response from resource call" e)), s1, w, log)
    else Some ((Close s1).1, (Close s1).2, w, (log ++ [receiveErrorLine e])%list).
Proof.
  intros HR. simpl. rewrite HR. simpl.
  destruct (errors_Is e io_EOF); [by destruct (k =? 0)%nat|].
  destruct (k =? 0)%nat; [done|]. by destruct (Close s1).
Qed.

(** C4, as amended.  Let the stream deliver the chunks [cs] and then
    answer a receive with the error [e].
    - [e] is the end of the stream: with no chunk delivered the relay
      returns the error of the empty resource response, and the writer is
      untouched; after at least one chunk it returns no error.
    - [e] is another error and no chunk was delivered: the relay returns
      [e] wrapped, and the writer is untouched.
    - [e] is another error after at least one chunk: the relay logs [e],
      calls Close on the stream and returns what Close returns, not [e]. *)
Theorem flushStream_termination (s s1 s2 : S) (cs : list CallResourceResponse)
    (r : option CallResourceResponse) (e : error) (w : ResponseWriter) :
  delivers s cs s1 ->
  Recv s1 = (Returns (r, Some e), s2) ->
  flushStream (Datatypes.S (length cs)) s w
  = match cs with
    | [] =>
        Some (Returns (Some (if errors_Is e io_EOF
                             then errors_New "received empty resource response"
                             else errutil_Wrap
                                    "failed to receive response from resource call" e)),
              s2, w, [])
    | _ :: _ =>
        let w' := (relayChunks 0 cs w []).1 in
        let log' := (relayChunks 0 cs w []).2 in
        if errors_Is e io_EOF then Some (Returns None, s2, w', log')
        else Some ((Close s2).1, (Close s2).2, w',
                   (log' ++ [receiveErrorLine e])%list)
    end.
Proof.
  intros Hd HR. unfold flushStream.
  replace (Datatypes.S (length cs)) with (length cs + 1)%nat by lia.
  rewrite (flushStream_from_delivers s s1 cs Hd).
  rewrite (flushStream_from_error s1 s2 r e 0 _ _ _ HR).
  destruct cs as [|c cs]; simpl.
  - by destruct (errors_Is e io_EOF).
  - done.
Qed.

Lemma relayChunks_cons (c : CallResourceResponse) (cs : list CallResourceResponse)
    (k : nat) (w : ResponseWriter) (log : list LogLine) :
  relayChunks k (c :: cs) w log
  = relayChunks (Datatypes.S k) cs (relayChunk k c w log).1 (relayChunk k c w log).2.
Proof. simpl. by destruct (relayChunk k c w log). Qed.

Lemma relayChunk_body (c : CallResourceResponse) (k : nat) (w : ResponseWriter)
    (log : list LogLine) :
  wBody (relayChunk k c w log).1 = (wBody w ++ [crBody c])%list.
Proof.
  unfold relayChunk.
  destruct (crHeaders c), (k =? 0)%nat, (wWriteResult w) eqn:?, (wIsFlusher w) eqn:?;
    simpl; repeat (match goal with H : _ = _ |- _ => rewrite H end); done.
Qed.

Lemma relayChunk_status (c : CallResourceResponse) (k : nat) (w : ResponseWriter)
    (log : list LogLine) :
  wStatus (relayChunk k c w log).1
  = (wStatus w
     ++ match k, crHeaders c with
        | O, Some _ => [crStatus c]
        | _, _ => []
        end)%list.
Proof.
  unfold relayChunk.
  destruct (crHeaders c), k, (wWriteResult w) eqn:?, (wIsFlusher w) eqn:?;
    simpl; repeat (match goal with H : _ = _ |- _ => rewrite H end);
    simpl; by rewrite ?app_nil_r.
Qed.

Lemma relayChunk_header_later (c : CallResourceResponse) (k : nat)
    (w : ResponseWriter) (log : list LogLine) :
  wHeader (relayChunk (Datatypes.S k) c w log).1 = wHeader w.
Proof.
  unfold relayChunk.
  destruct (crHeaders c), (wWriteResult w) eqn:?, (wIsFlusher w) eqn:?;
    simpl; repeat (match goal with H : _ = _ |- _ => rewrite H end); done.
Qed.

(** The bodies of the chunks are passed to Write in the order received. *)
Lemma relayChunks_bodies (cs : list CallResourceResponse) (k : nat)
    (w : ResponseWriter) (log : list LogLine) :
  wBody (relayChunks k cs w log).1 = (wBody w ++ map crBody cs)%list.
Proof.
  revert k w log. induction cs as [|c cs IH]; intros k w log.
  - simpl. by rewrite app_nil_r.
  - rewrite relayChunks_cons, IH, relayChunk_body. simpl. by rewrite <- app_assoc.
Qed.

(** Headers are only written for the first chunk of the stream. *)
Lemma relayChunks_headers_later (cs : list CallResourceResponse) (k : nat)
    (w : ResponseWriter) (log : list LogLine) :
  wHeader (relayChunks (Datatypes.S k) cs w log).1 = wHeader w.
Proof.
  revert k w log. induction cs as [|c cs IH]; intros k w log; [done|].
  by rewrite relayChunks_cons, IH, relayChunk_header_later.
Qed.

Lemma relayChunks_status_later (cs : list CallResourceResponse) (k : nat)
    (w : ResponseWriter) (log : list LogLine) :
  wStatus (relayChunks (Datatypes.S k) cs w log).1 = wStatus w.
Proof.
  revert k w log. induction cs as [|c cs IH]; intros k w log; [done|].
  rewrite relayChunks_cons, IH, relayChunk_status. simpl. by rewrite app_nil_r.
Qed.

(** WriteHeader is called at most once: for the first chunk when it
    carries headers, with the status of that chunk. *)
Lemma relayChunks_status (cs : list CallResourceResponse) (w : ResponseWriter)
    (log : list LogLine) :
  wStatus (relayChunks 0 cs w log).1
  = (wStatus w
     ++ match cs with
        | c :: _ => match crHeaders c with Some _ => [crStatus c] | None => [] end
        | [] => []
        end)%list.
Proof.
  destruct cs as [|c cs].
  - simpl. by rewrite app_nil_r.
  - by rewrite relayChunks_cons, relayChunks_status_later, relayChunk_status.
Qed.

End FlushStreamFacts.

Lemma flushStream_termination_witness :
  let s := Samples.scheduled true
             [[ActSend (Some (Samples.bodyChunk "hello"))];
              [ActCancel context_Canceled]] in
  let cs := [Samples.bodyChunk "hello"] in
  let s1 := (Recv s).2 in
  let s2 := (Recv s1).2 in
  delivers s cs s1
  /\ Recv s1 = (Returns (None, Some context_Canceled), s2)
  /\ flushStream 2 s newRecorder
     = Some ((Close s2).1, (Close s2).2, (relayChunks 0 cs newRecorder []).1,
             ((relayChunks 0 cs newRecorder []).2
              ++ [receiveErrorLine context_Canceled])%list).
Proof.
  intros s cs s1 s2.
  assert (Hd : delivers s cs s1).
  { eapply delivers_cons; [reflexivity | apply delivers_nil]. }
  assert (HR : Recv s1 = (Returns (None, Some context_Canceled), s2)) by reflexivity.
  split; [exact Hd|]. split; [exact HR|].
  exact (flushStream_termination s s1 s2 cs None context_Canceled newRecorder Hd HR).
Defined.

(** C4, as stated, fails in its last part.  The plugin sends one chunk; then
    the owner of the stream closes it and the context is cancelled, and the
    select of Recv takes the cancellation.  The relay logs the receive error
    and calls Close, which fails on the closed stream, and that error is
    what the relay returns. *)
Lemma flushStream_late_error_returns_close_error :
  Samples.observed
    (flushStream 2
       (Samples.scheduled true
          [[ActSend (Some (Samples.bodyChunk "hello"))];
           [ActClose; ActCancel context_Canceled]])
       newRecorder)
  = Some (Returns (Some (errors_New "cannot close a closed stream")),
          {| wHeader := ∅; wStatus := []; wBody := ["hello"]; wFlushes := 1%nat;
             wWriteResult := None; wIsFlusher := true |},
          [receiveErrorLine context_Canceled]).
Proof. vm_compute. reflexivity. Qed.

(** ** Headers of the first chunk *)

Lemma Header_Add_lookup (h : Header) (k v k' : string) :
  Header_Add h k v !! k'
  = if decide (CanonicalMIMEHeaderKey k = k')
    then Some (default [] (h !! k') ++ [v])%list else h !! k'.
Proof.
  unfold Header_Add. case_decide as E.
  - subst k'. by rewrite lookup_insert_eq.
  - by rewrite lookup_insert_ne.
Qed.

Lemma foldl_Header_Add_lookup (vs : list string) (h : Header) (k k' : string) :
  foldl (fun wh v => Header_Add wh k v) h vs !! k'
  = if decide (CanonicalMIMEHeaderKey k = k')
    then match vs with
         | [] => h !! k'
         | _ :: _ => Some (default [] (h !! k') ++ vs)%list
         end
    else h !! k'.
Proof.
  revert h. induction vs as [|v vs IH]; intros h; simpl.
  - by case_decide.
  - rewrite IH, Header_Add_lookup. case_decide as E; [|done].
    destruct vs as [|v' vs]; simpl; [done|]. by rewrite <- app_assoc.
Qed.

(** On a header map whose keys are all in canonical form the header loop
    does what it is meant to do: Set-Cookie is not copied, and the values of
    every other key are appended, in order, to those the writer has. *)
Lemma copyHeaders_canonical (headers wh : Header) :
  (forall k vs, headers !! k = Some vs -> CanonicalMIMEHeaderKey k = k) ->
  forall k' : string,
    copyHeaders headers wh !! k'
    = if decide (k' = "Set-Cookie") then wh !! k'
      else match headers !! k' with
           | Some (v :: vs) => Some (default [] (wh !! k') ++ v :: vs)%list
           | _ => wh !! k'
           end.
Proof.
  unfold copyHeaders.
  apply (map_fold_weak_ind
           (fun (r : Header) (m : Header) =>
              (forall k vs, m !! k = Some vs -> CanonicalMIMEHeaderKey k = k) ->
              forall k' : string,
                r !! k'
                = if decide (k' = "Set-Cookie") then wh !! k'
                  else match m !! k' with
                       | Some (v :: vs) => Some (default [] (wh !! k') ++ v :: vs)%list
                       | _ => wh !! k'
                       end)).
  - intros _ k'. rewrite lookup_empty. by case_decide.
  - intros i x m r Hi IH Hcan k'.
    assert (Hm : forall k vs, m !! k = Some vs -> CanonicalMIMEHeaderKey k = k).
    { intros k vs Hk. apply (Hcan k vs). rewrite lookup_insert_ne; [done|].
      intros ->. by rewrite Hi in Hk. }
    assert (Hci : CanonicalMIMEHeaderKey i = i).
    { apply (Hcan i x). by rewrite lookup_insert_eq. }
    specialize (IH Hm). destruct (decide (i = "Set-Cookie")) as [->|Hne].
    + rewrite IH. case_decide as E; [done|]. by rewrite lookup_insert_ne.
    + rewrite foldl_Header_Add_lookup, Hci.
      destruct (decide (i = k')) as [<-|Hik].
      * rewrite lookup_insert_eq, IH, Hi.
        destruct (decide (i = "Set-Cookie")); [done|]. by destruct x.
      * rewrite lookup_insert_ne by done. apply IH.
Qed.

(** C5.  A first chunk whose header map has the key [set-cookie], in lower
    case, passes the comparison with [Set-Cookie]; [Header.Add] then stores
    its values under the canonical key, so the response carries the cookie.
    The rest of the claim holds on this input: one status write, the default
    content type, the body written. *)
Theorem flushStream_forwards_lowercase_set_cookie :
  let chunk := Samples.headerChunk {[ "set-cookie" := ["sid=1"] ]} "ok" in
  let r := Samples.observed
             (flushStream 2 (Samples.scheduled true [[ActSend (Some chunk)]; [ActClose]])
                newRecorder) in
  r = Some (Returns None,
            {| wHeader := {[ "Set-Cookie" := ["sid=1"];
                             "Content-Type" := ["application/json"] ]};
               wStatus := [200%Z]; wBody := ["ok"]; wFlushes := 1%nat;
               wWriteResult := None; wIsFlusher := true |},
            []).
Proof. vm_compute. reflexivity. Qed.

(** ** Crash watch *)

Section CrashWatch.

Variable p : ptr.

Lemma occurrences_app (ev : Event) (l1 l2 : list Event) :
  occurrences ev (l1 ++ l2) = (occurrences ev l1 + occurrences ev l2)%nat.
Proof. unfold occurrences. by rewrite filter_app, length_app. Qed.

(** A turn that ends the loop: the result is decided by that turn alone,
    nothing is started, and what comes after is never looked at. *)
Lemma restartKilledProcess_stop (e : WatchEvent) (post : list WatchEvent) :
  stopsWatch e = true ->
  restartKilledProcess p (e :: post) = restartKilledProcess p [e]
  /\ (restartKilledProcess p [e]).1 = Returns (watchResult e)
  /\ occurrences (EvPlugin p CapStart) (restartKilledProcess p [e]).2 = 0%nat.
Proof.
  destruct e as [[err|]|h start]; simpl; intros Hs.
  - by destruct (errors_Is err context_Canceled).
  - done.
  - by rewrite Hs.
Qed.

(** Turns that do not end the loop: it goes on with the rest, having
    issued what these turns made it issue. *)
Lemma restartKilledProcess_app (pre rest : list WatchEvent) :
  Forall (fun e => stopsWatch e = false) pre ->
  restartKilledProcess p (pre ++ rest)
  = ((restartKilledProcess p rest).1,
     ((restartKilledProcess p pre).2 ++ (restartKilledProcess p rest).2)%list).
Proof.
  induction 1 as [|e pre He Hpre IH]; simpl.
  - by destruct (restartKilledProcess p rest).
  - destruct e as [err|h start]; [discriminate|]. simpl in He. rewrite He.
    destruct (Exited h); simpl; [|done].
    rewrite IH. destruct (restartKilledProcess p pre) as [r out]. simpl.
    by destruct start.
Qed.

(** One tick on a handle that is not decommissioned: one Start when the
    handle has exited, none otherwise; one error line when that Start
    fails. *)
Lemma restartKilledProcess_turn (h : PluginV2) (start : option error) :
  IsDecommissioned h = false ->
  occurrences (EvPlugin p CapStart) (restartKilledProcess p [Tick h start]).2
  = (if restartDue (Tick h start) then 1 else 0)%nat
  /\ occurrences (EvLog LvlError "Failed to restart plugin")
       (restartKilledProcess p [Tick h start]).2
     = (if restartFails (Tick h start) then 1 else 0)%nat.
Proof.
  intros He. simpl. rewrite He.
  destruct (Exited h), start; simpl; unfold occurrences;
    rewrite ?filter_cons, ?filter_nil; repeat case_decide; simplify_eq; done.
Qed.

Lemma restartKilledProcess_running (pre : list WatchEvent) :
  Forall (fun e => stopsWatch e = false) pre ->
  (restartKilledProcess p pre).1 = Blocks
  /\ occurrences (EvPlugin p CapStart) (restartKilledProcess p pre).2
     = length (filter (fun e => restartDue e = true) pre)
  /\ occurrences (EvLog LvlError "Failed to restart plugin")
       (restartKilledProcess p pre).2
     = length (filter (fun e => restartFails e = true) pre).
Proof.
  induction 1 as [|e pre He Hpre (IH1 & IH2 & IH3)]; [done|].
  assert (Happ : restartKilledProcess p (e :: pre)
                 = ((restartKilledProcess p pre).1,
                    ((restartKilledProcess p [e]).2
                     ++ (restartKilledProcess p pre).2)%list)).
  { apply (restartKilledProcess_app [e] pre). constructor; [done|constructor]. }
  rewrite Happ. cbn [fst snd]. rewrite !occurrences_app, IH2, IH3, !filter_cons.
  destruct e as [err|h start]; [discriminate|]. cbn [stopsWatch] in He.
  destruct (restartKilledProcess_turn h start He) as [-> ->].
  split; [done|].
  destruct (restartDue (Tick h start)), (restartFails (Tick h start));
    rewrite ?decide_True by done; rewrite ?decide_False by done; done.
Qed.

(** C6.  Let the select of the crash watch take the turns [pre], none of
    which ends the loop, then a turn [e] that ends it (the context is
    done, or a tick finds the handle decommissioned), then possibly more.
    - As long as only [pre] has happened the loop is still waiting; it has
      called Start once for each tick of [pre] that found the handle
      exited and not decommissioned, and logged each failed Start.
    - On [e] it returns: without error when the handle is decommissioned
      or the context error is nil or the cancellation, with the context
      error otherwise.
    - What follows [e] changes nothing: no Start is issued after it. *)
Theorem restartKilledProcess_watch (pre post : list WatchEvent) (e : WatchEvent) :
  Forall (fun x => stopsWatch x = false) pre ->
  stopsWatch e = true ->
  (restartKilledProcess p pre).1 = Blocks
  /\ occurrences (EvPlugin p CapStart) (restartKilledProcess p pre).2
     = length (filter (fun x => restartDue x = true) pre)
  /\ occurrences (EvLog LvlError "Failed to restart plugin")
       (restartKilledProcess p pre).2
     = length (filter (fun x => restartFails x = true) pre)
  /\ (restartKilledProcess p (pre ++ e :: post)).1 = Returns (watchResult e)
  /\ restartKilledProcess p (pre ++ e :: post) = restartKilledProcess p (pre ++ [e])
  /\ occurrences (EvPlugin p CapStart) (restartKilledProcess p (pre ++ e :: post)).2
     = length (filter (fun x => restartDue x = true) pre).
Proof.
  intros Hpre He.
  destruct (restartKilledProcess_running pre Hpre) as (H1 & H2 & H3).
  destruct (restartKilledProcess_stop e post He) as (H4 & H5 & H6).
  rewrite !restartKilledProcess_app by done. rewrite H4. cbn [fst snd].
  repeat split; try done.
  rewrite occurrences_app, H2, H6. lia.
Qed.

End CrashWatch.

Lemma restartKilledProcess_watch_witness :
  let pre := [Tick Samples.handleExited None; Tick Samples.handleA None;
              Tick Samples.handleExited (Some ErrPluginUnavailable)] in
  let e := Tick (set_decommissioned true Samples.handleExited) None in
  let post := [Tick Samples.handleExited None] in
  (restartKilledProcess 1%nat (pre ++ e :: post)).1 = Returns None
  /\ occurrences (EvPlugin 1%nat CapStart)
       (restartKilledProcess 1%nat (pre ++ e :: post)).2 = 2%nat
  /\ occurrences (EvLog LvlError "Failed to restart plugin")
       (restartKilledProcess 1%nat pre).2 = 1%nat.
Proof.
  intros pre e post.
  destruct (restartKilledProcess_watch 1%nat pre post e)
    as (_ & _ & H3 & H4 & _ & H6).
  - repeat constructor.
  - reflexivity.
  - split; [exact H4|]. split; [exact H6 | exact H3].
Defined.

(** ** The stream object *)

Lemma wf_new (c : option error) : wf (newCallResourceResponseStream c).
Proof. split; [done|]. by intros _. Qed.

Lemma wf_Send (pick : bool) (res : option CallResourceResponse)
    (s : callResourceResponseStream) :
  wf s -> wf (Send pick res s).2.
Proof.
  intros Hwf. pose proof Hwf as [Hc Hq]. unfold Send.
  destruct (closed s) eqn:Ec; [exact Hwf|].
  destruct (select2 _ _ _); [exact Hwf| |exact Hwf].
  unfold chan_send. rewrite <- Hc. simpl. split; [done|].
  simpl. intros [?|Hctx]; [done|].
  destruct Hq as [-> ->]; [by right|done].
Qed.

Lemma wf_Recv (pick : bool) (s : callResourceResponseStream) :
  wf s -> wf (Recv_stream pick s).2.
Proof.
  intros Hwf. pose proof Hwf as [Hc Hq]. unfold Recv_stream.
  destruct (select2 _ _ _); [exact Hwf| |exact Hwf].
  unfold chan_recv. destruct (ch_closed (stream s)) eqn:Ech.
  { simpl. split; simpl; [by rewrite Ech|]. by rewrite Ech. }
  destruct (ch_sendq (stream s)) as [|v q] eqn:Eq.
  { simpl. split; simpl; [by rewrite Ech|]. by rewrite Ech, Eq. }
  simpl. split; [done|]. simpl. intros [?|Hctx]; [done|].
  destruct Hq as [Hs _]; [by right|]. done.
Qed.

Lemma wf_Close (s : callResourceResponseStream) : wf s -> wf (Close_stream s).2.
Proof.
  intros Hwf. pose proof Hwf as [Hc Hq]. unfold Close_stream.
  destruct (closed s) eqn:Ec; [exact Hwf|].
  unfold chan_close. rewrite <- Hc. simpl. by split.
Qed.

Lemma wf_applyAction (s : callResourceResponseStream) (a : EnvAction) :
  wf s -> wf (applyAction s a).
Proof.
  intros Hwf. destruct a as [res| | |err]; simpl.
  - pose proof (wf_Send true res s Hwf) as HS.
    destruct (Send true res s) as [[r| |why] s'] eqn:E; try exact HS.
    destruct Hwf as [Hc Hq]. unfold Send in E. rewrite Hc in E.
    destruct (ch_closed (stream s)) eqn:Ech; [discriminate|].
    unfold select2, chan_can_send, ctx_Done in E. rewrite Ech in E. simpl in E.
    case_bool_decide as Hctx; [by destruct (0 <? ch_recvq (stream s))%nat|].
    split; simpl; [by rewrite Hc, Ech|]. rewrite Ech, Hctx. by intros [|].
  - pose proof (wf_Recv true s Hwf) as HR.
    destruct (Recv_stream true s) as [[r| |why] s'] eqn:E; try exact HR.
    destruct Hwf as [Hc Hq]. unfold Recv_stream, select2, chan_can_recv, ctx_Done in E.
    destruct (ch_closed (stream s)) eqn:Ech.
    { simpl in E. destruct (bool_decide (ctx s <> None)); [discriminate|].
      destruct (chan_recv (stream s)) as [[?|] ?]; discriminate. }
    simpl in E. case_bool_decide as Hctx.
    { destruct (negb _); discriminate. }
    destruct (negb (bool_decide (ch_sendq (stream s) = []))) eqn:En.
    { destruct (chan_recv (stream s)) as [[?|] ?]; discriminate. }
    split; simpl; [by rewrite Hc, Ech|]. rewrite Ech, Hctx. by intros [|].
  - by apply wf_Close.
  - destruct Hwf as [Hc Hq]. destruct (ctx s) eqn:Ectx; [by split; [|rewrite Ectx]|].
    by split.
Qed.

(** C9.  For a stream in any state it can be in:
    - Send returns an error when the stream is closed, and when the
      governing context is done;
    - Recv returns the end of the stream when the channel is closed and the
      context is not done, the error of the context when the context is
      done and the channel is not closed, and one or the other, as its
      select chooses, when both hold;
    - Close succeeds on an open stream, and a second Close returns an
      error, as does every Close of a closed stream. *)
Theorem stream_contract (s : callResourceResponseStream) (pick : bool)
    (res : option CallResourceResponse) :
  wf s ->
  (closed s = true \/ ctx s <> None ->
   exists e, Send pick res s = (Returns (Some e), s))
  /\ (ch_closed (stream s) = true -> ctx s = None ->
      (Recv_stream pick s).1 = Returns (None, Some io_EOF))
  /\ (forall e, ctx s = Some e -> ch_closed (stream s) = false ->
      Recv_stream pick s = (Returns (None, Some e), s))
  /\ (forall e, ctx s = Some e -> ch_closed (stream s) = true ->
      (Recv_stream pick s).1 = Returns (None, Some (if pick then e else io_EOF)))
  /\ (closed s = false ->
      (Close_stream s).1 = Returns None
      /\ closed (Close_stream s).2 = true
      /\ (Close_stream (Close_stream s).2).1
         = Returns (Some (errors_New "cannot close a closed stream")))
  /\ (closed s = true ->
      Close_stream s = (Returns (Some (errors_New "cannot close a closed stream")), s)).
Proof.
  intros [Hc Hq]. repeat split.
  - intros Hor. unfold Send. destruct (closed s) eqn:Ec; [eauto|].
    destruct Hor as [?|Hctx]; [done|].
    destruct Hq as [_ Hr]; [by right|].
    unfold select2, ctx_Done, chan_can_send. rewrite <- Hc, Hr. simpl.
    rewrite bool_decide_eq_true_2 by done. eauto.
  - intros Hch Hctx. unfold Recv_stream, select2, ctx_Done, chan_can_recv, chan_recv.
    rewrite Hch, Hctx. simpl. done.
  - intros e Hctx Hch. unfold Recv_stream, select2, ctx_Done, chan_can_recv.
    destruct Hq as [Hs _]; [right; by rewrite Hctx|].
    rewrite Hch, Hs, Hctx. simpl. done.
  - intros e Hctx Hch. unfold Recv_stream, select2, ctx_Done, chan_can_recv, chan_recv.
    rewrite Hch, Hctx. simpl.
    by destruct pick.
  - unfold Close_stream, chan_close. rewrite H. by rewrite <- Hc, H.
  - unfold Close_stream, chan_close. rewrite H. by rewrite <- Hc, H.
  - unfold Close_stream at 2. unfold chan_close. rewrite H, <- Hc, H. done.
  - intros Hcl. unfold Close_stream. by rewrite Hcl.
Qed.

Lemma stream_contract_witness :
  let s := applyAction (newCallResourceResponseStream None)
             (ActCancel context_Canceled) in
  (exists e, Send false (Some (Samples.bodyChunk "x")) s = (Returns (Some e), s))
  /\ Recv_stream false s = (Returns (None, Some context_Canceled), s)
  /\ (Close_stream (Close_stream s).2).1
     = Returns (Some (errors_New "cannot close a closed stream")).
Proof.
  intros s.
  destruct (stream_contract s false (Some (Samples.bodyChunk "x")))
    as (HS & _ & HR & _ & HC & _).
  - apply wf_applyAction, wf_new.
  - split; [apply HS; right; discriminate|].
    split; [apply (HR context_Canceled); reflexivity|].
    apply HC. reflexivity.
Defined.


(** * Further properties *)

(** ** Registration *)

Ltac run_reg :=
  unfold registerAndStart, register, start, startPluginAndRestartKilledProcesses,
    plugin_Start, stopOne, Run;
  run.

Lemma isRegistered_Plugin (w : World) (pluginID : string) :
  isRegistered w pluginID = bool_decide (Plugin w pluginID <> None).
Proof.
  unfold isRegistered, Plugin.
  destruct (plugins (mgr w) !! pluginID) as [p|]; [|done].
  by destruct (IsDecommissioned (heap w p)) eqn:E; simpl; rewrite ?E.
Qed.

Lemma Plugin_insert (w : World) (t : list Event) (p : ptr) (id id' : string) :
  Plugin {| mgr := set_plugins (<[id := p]> (plugins (mgr w))) (mgr w);
            heap := heap w; trace := t |} id'
  = if decide (id = id')
    then (if IsDecommissioned (heap w p) then None else Some p)
    else Plugin w id'.
Proof.
  unfold Plugin. simpl. rewrite lookup_insert. by case_decide.
Qed.

(** Registering a handle under a free id: the handle is then what the
    lookup of its id finds (unless it is decommissioned), the lookups of all
    other ids are as before, and no handle is touched. *)
Theorem register_then_lookup (w : World) (p : ptr) :
  plugins (mgr w) !! ID (heap w p) = None ->
  let w' := (register p w).2 in
  (register p w).1 = None
  /\ heap w' = heap w
  /\ Plugin w' (ID (heap w p))
     = (if IsDecommissioned (heap w p) then None else Some p)
  /\ forall id, id <> ID (heap w p) -> Plugin w' id = Plugin w id.
Proof.
  intros Hfree. unfold register, bind, gets, ret, modify_plugins, emit. simpl.
  rewrite Hfree. simpl. repeat split.
  - rewrite Plugin_insert. by rewrite decide_True.
  - intros id Hne. rewrite Plugin_insert. by rewrite decide_False.
Qed.

Lemma register_then_lookup_witness :
  let w := Samples.emptyWorld in
  (register 1%nat w).1 = None
  /\ heap (register 1%nat w).2 = heap w
  /\ Plugin (register 1%nat w).2 "A" = Some 1%nat
  /\ forall id, id <> "A" -> Plugin (register 1%nat w).2 id = Plugin w id.
Proof.
  apply (register_then_lookup Samples.emptyWorld 1%nat). reflexivity.
Defined.

(** A second registration under the same id fails and changes nothing: the
    first handle stays the one in the map. *)
Theorem register_twice (w : World) (p p' : ptr) :
  plugins (mgr w) !! ID (heap w p) = None ->
  ID (heap w p') = ID (heap w p) ->
  let w1 := (register p w).2 in
  register p' w1
  = (Some (errors_New ("plugin " +:+ ID (heap w p) +:+ " already registered")), w1)
  /\ plugins (mgr w1) !! ID (heap w p) = Some p.
Proof.
  intros Hfree Hid. unfold register, bind, gets, ret, modify_plugins, emit. simpl.
  rewrite Hfree. simpl. rewrite Hid, lookup_insert_eq. done.
Qed.

Lemma register_twice_witness :
  let w := Samples.emptyWorld in
  let w1 := (register 1%nat w).2 in
  register 2%nat w1 = (Some (errors_New "plugin A already registered"), w1)
  /\ plugins (mgr w1) !! "A" = Some 1%nat.
Proof.
  apply (register_twice Samples.emptyWorld 1%nat 2%nat); reflexivity.
Defined.

(** ** The keys of the registry *)

Lemma keys_match_register (w : World) (p : ptr) :
  keys_match w -> keys_match (register p w).2.
Proof.
  intros Hk. unfold register, bind, gets, ret, modify_plugins, emit. simpl.
  destruct (plugins (mgr w) !! ID (heap w p)) eqn:E; simpl; [done|].
  intros id q. simpl. rewrite lookup_insert. case_decide as Hid.
  - by intros [= <-].
  - apply Hk.
Qed.

Lemma keys_match_trace (w : World) (t : list Event) :
  keys_match w -> keys_match {| mgr := mgr w; heap := heap w; trace := t |}.
Proof. done. Qed.

Lemma keys_match_unregisterAndStop (w : World) (p : ptr) :
  keys_match w -> keys_match (unregisterAndStop p w).2.
Proof.
  intros Hk. run.
  destruct (onDecommission (heap w p)) eqn:Ed; simpl; [done|].
  rewrite decide_True by done. simpl.
  assert (Hk' : forall id q, plugins (mgr w) !! id = Some q ->
            ID (if decide (q = p) then set_decommissioned true (heap w p)
                else heap w q) = id).
  { intros id q Hq. case_decide as E; [subst q|]; by apply Hk. }
  destruct (onStop (heap w p)) eqn:Es; simpl.
  - intros id q. simpl. apply Hk'.
  - rewrite decide_True by done. intros id q. simpl.
    intros Hq. apply lookup_delete_Some in Hq as [_ Hq]. by apply Hk'.
Qed.

Lemma keys_match_Uninstall (w : World) (pluginID : string) :
  keys_match w -> keys_match (Uninstall pluginID w).2.
Proof.
  intros Hk. unfold Uninstall, bind, gets, ret.
  destruct (Plugin w pluginID) as [p|]; [|done].
  destruct (negb (IsExternalPlugin (heap w p))); [done|].
  destruct (match Filepath.Rel _ _ with Some _ => _ | None => _ end); [done|].
  destruct (isRegistered w pluginID).
  - pose proof (keys_match_unregisterAndStop w p Hk) as Hu.
    destruct (unregisterAndStop p w) as [[err|] w1]; simpl in *; [done|].
    unfold installer_Uninstall, bind, emit, gets. simpl. done.
  - unfold installer_Uninstall, bind, emit, gets. simpl. done.
Qed.

Lemma keys_match_start (w : World) (p : ptr) :
  keys_match w -> keys_match (start p w).2.
Proof.
  intros Hk. run_reg.
  destruct (negb (IsManaged (heap w p)) || negb (Backend (heap w p))); [done|].
  simpl. by destruct (onStart (heap w p)).
Qed.

Lemma keys_match_registerAndStart (w : World) (p : ptr) :
  keys_match w -> keys_match (registerAndStart p w).2.
Proof.
  intros Hk. pose proof (keys_match_register w p Hk) as Hr.
  unfold registerAndStart, bind, gets, ret.
  destruct (register p w) as [[err|] w1]; simpl in *; [done|].
  destruct (negb (isRegistered w1 (ID (heap w1 p)))); [done|].
  pose proof (keys_match_start w1 p Hr) as Hs.
  by destruct (start p w1).
Qed.

Lemma stop_frame (l : list (string * ptr)) (w : World) :
  let w' := foldl (fun w (kp : string * ptr) => (stopOne kp.2 w).2) w l in
  mgr w' = mgr w /\ heap w' = heap w.
Proof.
  revert w. induction l as [|kp l IH]; intros w; simpl; [done|].
  destruct (IH (stopOne kp.2 w).2) as [-> ->].
  run_reg. by destruct (onStop (heap w kp.2)).
Qed.

(** None of the operations that change the registry breaks the agreement
    between its keys and the ids of its handles: registration, removal,
    uninstallation and shutdown all keep it. *)
Theorem keys_match_kept (w : World) (p : ptr) (pluginID : string) :
  keys_match w ->
  keys_match (register p w).2
  /\ keys_match (registerAndStart p w).2
  /\ keys_match (unregisterAndStop p w).2
  /\ keys_match (Uninstall pluginID w).2
  /\ keys_match (stop w).2.
Proof.
  intros Hk. repeat split.
  - by apply keys_match_register.
  - by apply keys_match_registerAndStart.
  - by apply keys_match_unregisterAndStop.
  - by apply keys_match_Uninstall.
  - unfold stop. simpl.
    destruct (stop_frame (map_to_list (plugins (mgr w))) w) as [Hm Hh].
    intros id q. rewrite Hm, Hh. apply Hk.
Qed.

Lemma keys_match_worldWith : keys_match (Samples.worldWith Samples.handleA).
Proof.
  intros id q Hq. cbn in Hq. apply lookup_singleton_Some in Hq as [<- _]. reflexivity.
Qed.

Lemma keys_match_kept_witness :
  let w := Samples.worldWith Samples.handleA in
  keys_match (register 1%nat w).2
  /\ keys_match (registerAndStart 1%nat w).2
  /\ keys_match (unregisterAndStop 1%nat w).2
  /\ keys_match (Uninstall "A" w).2
  /\ keys_match (stop w).2.
Proof.
  apply (keys_match_kept (Samples.worldWith Samples.handleA) 1%nat "A").
  apply keys_match_worldWith.
Defined.

(** ** Outcomes of Uninstall *)




Lemma insideRoot_worldWith : insideRoot (Samples.worldWith Samples.handleA) 1%nat.
Proof. reflexivity. Qed.





(** ** Registration with start-up *)

Lemma registerAndStart_live_world (w : World) (p : ptr) :
  plugins (mgr w) !! ID (heap w p) = None ->
  IsDecommissioned (heap w p) = false ->
  let h := heap w p in
  let runs := IsManaged h && Backend h in
  registerAndStart p w
  = ((None, if runs && bool_decide (onStart h = None) then [p] else []),
     {| mgr := set_plugins (<[ID h := p]> (plugins (mgr w))) (mgr w);
        heap := heap w;
        trace := (trace w ++ [EvLog LvlDebug "Plugin registered"]
                  ++ (if runs then
                        EvPlugin p CapStart
                        :: match onStart h with
                           | Some _ => [EvLog LvlError "Failed to start plugin"]
                           | None => []
                           end
                      else []))%list |}).
Proof.
  intros Hfree Hlive h runs. subst h runs.
  unfold registerAndStart, register, bind, gets, ret, modify_plugins, emit. simpl.
  rewrite Hfree. simpl. rewrite isRegistered_Plugin, Plugin_insert.
  rewrite decide_True by done. rewrite Hlive. simpl.
  run_reg. destruct (IsManaged (heap w p)), (Backend (heap w p)); simpl;
    try done.
  destruct (onStart (heap w p)); simpl; by rewrite <- !app_assoc.
Qed.

(** Registering and starting a live handle under a free id succeeds, and
    the handle is then found under its id.  Start is called exactly when the
    handle is managed and has a backend, and then once; when the Start fails
    the failure is logged and the registration still succeeds; a crash watch
    is launched exactly when Start was called and succeeded. *)
Theorem registerAndStart_live (w : World) (p : ptr) :
  plugins (mgr w) !! ID (heap w p) = None ->
  IsDecommissioned (heap w p) = false ->
  let h := heap w p in
  let runs := IsManaged h && Backend h in
  let r := registerAndStart p w in
  r.1 = (None, if runs && bool_decide (onStart h = None) then [p] else [])
  /\ Plugin r.2 (ID h) = Some p
  /\ heap r.2 = heap w
  /\ occurrences (EvPlugin p CapStart) (emitted (registerAndStart p) w)
     = (if runs then 1 else 0)%nat
  /\ occurrences (EvLog LvlError "Failed to start plugin")
       (emitted (registerAndStart p) w)
     = (if runs && bool_decide (onStart h <> None) then 1 else 0)%nat.
Proof.
  intros Hfree Hlive h runs r. subst r. unfold emitted.
  rewrite (registerAndStart_live_world w p Hfree Hlive). cbn [fst snd trace heap].
  fold h. fold runs. rewrite drop_app_length.
  split; [done|]. split.
  { rewrite Plugin_insert. rewrite decide_True by done. by rewrite Hlive. }
  split; [done|].
  unfold occurrences.
  destruct runs, (onStart h); simpl;
    rewrite ?filter_cons, ?filter_nil; repeat case_decide; simplify_eq; done.
Qed.

Lemma registerAndStart_live_witness :
  let r := registerAndStart 1%nat Samples.emptyWorld in
  r.1 = (None, [1%nat])
  /\ Plugin r.2 "A" = Some 1%nat
  /\ heap r.2 = heap Samples.emptyWorld
  /\ occurrences (EvPlugin 1%nat CapStart)
       (emitted (registerAndStart 1%nat) Samples.emptyWorld) = 1%nat
  /\ occurrences (EvLog LvlError "Failed to start plugin")
       (emitted (registerAndStart 1%nat) Samples.emptyWorld) = 0%nat.
Proof.
  apply (registerAndStart_live Samples.emptyWorld 1%nat); reflexivity.
Defined.

(** Registering and starting a decommissioned handle under a free id fails
    with the error of a plugin that is not registered; the handle is not
    started, but the entry made by the registration stays in the map. *)
Theorem registerAndStart_decommissioned (w : World) (p : ptr) :
  plugins (mgr w) !! ID (heap w p) = None ->
  IsDecommissioned (heap w p) = true ->
  registerAndStart p w
  = ((Some (errors_New ("plugin " +:+ ID (heap w p) +:+ " is not registered")), []),
     {| mgr := set_plugins (<[ID (heap w p) := p]> (plugins (mgr w))) (mgr w);
        heap := heap w;
        trace := (trace w ++ [EvLog LvlDebug "Plugin registered"])%list |}).
Proof.
  intros Hfree Hd.
  unfold registerAndStart, register, bind, gets, ret, modify_plugins, emit. simpl.
  rewrite Hfree. simpl. rewrite isRegistered_Plugin, Plugin_insert.
  rewrite decide_True by done. rewrite Hd. done.
Qed.

Lemma registerAndStart_decommissioned_witness :
  let w := {| mgr := Samples.manager ∅;
              heap := fun _ => set_decommissioned true Samples.handleA;
              trace := [] |} in
  (registerAndStart 1%nat w).1 = (Some (errors_New "plugin A is not registered"), [])
  /\ plugins (mgr (registerAndStart 1%nat w).2) !! "A" = Some 1%nat.
Proof.
  intros w. rewrite (registerAndStart_decommissioned w 1%nat); [|reflexivity..].
  split; reflexivity.
Defined.

(** ** Listing *)




(** [Renderer] finds a renderer whenever the map holds one, also when that
    handle is decommissioned: what it returns is in the map and is a
    renderer, and it returns nil only when no handle of the map is one. *)
Theorem Renderer_finds (w : World) :
  match Renderer w with
  | Some p => (exists id, plugins (mgr w) !! id = Some p) /\ IsRenderer (heap w p) = true
  | None => forall id p, plugins (mgr w) !! id = Some p -> IsRenderer (heap w p) = false
  end.
Proof.
  unfold Renderer.
  destruct (find _ _) as [p|] eqn:E.
  - apply find_some in E as [Hin Hr]. split; [|done].
    apply in_map_iff in Hin as ([id q] & <- & Hin).
    exists id. apply elem_of_map_to_list. by apply list_elem_of_In.
  - intros id p Hp.
    apply (find_none _ _ E p). apply in_map_iff. exists (id, p). split; [done|].
    apply list_elem_of_In. by apply elem_of_map_to_list.
Qed.

(** ** Shutdown *)

Lemma stopOne_trace (w : World) (p : ptr) :
  (stopOne p w).2
  = {| mgr := mgr w; heap := heap w;
       trace := (trace w
                 ++ [EvLog LvlDebug "Stopping plugin"; EvPlugin p CapStop]
                 ++ match onStop (heap w p) with
                    | Some _ => [EvLog LvlError "Failed to stop plugin"]
                    | None => []
                    end
                 ++ [EvLog LvlDebug "Plugin stopped"])%list |}.
Proof.
  run_reg. destruct (onStop (heap w p)); simpl; by rewrite <- !app_assoc.
Qed.

Lemma stop_fold (l : list (string * ptr)) (w : World) (q : ptr) :
  let w' := foldl (fun w (kp : string * ptr) => (stopOne kp.2 w).2) w l in
  exists evs,
    trace w' = (trace w ++ evs)%list
    /\ occurrences (EvPlugin q CapStop) evs
       = length (filter (fun kp : string * ptr => kp.2 = q) l)
    /\ occurrences (EvLog LvlError "Failed to stop plugin") evs
       = length (filter (fun kp : string * ptr => onStop (heap w kp.2) <> None) l).
Proof.
  revert w. induction l as [|kp l IH]; intros w; simpl.
  - exists []. by rewrite app_nil_r.
  - destruct (IH (stopOne kp.2 w).2) as (evs & Ht & Hq & He).
    pose proof (stopOne_trace w kp.2) as Hs.
    assert (Hh : heap (stopOne kp.2 w).2 = heap w) by (by rewrite Hs).
    assert (Htr : trace (stopOne kp.2 w).2
                  = (trace w
                     ++ [EvLog LvlDebug "Stopping plugin"; EvPlugin kp.2 CapStop]
                     ++ match onStop (heap w kp.2) with
                        | Some _ => [EvLog LvlError "Failed to stop plugin"]
                        | None => []
                        end
                     ++ [EvLog LvlDebug "Plugin stopped"])%list) by (by rewrite Hs).
    rewrite Hh in He. rewrite Htr in Ht. rewrite <- app_assoc in Ht.
    eexists. split; [exact Ht|].
    rewrite !occurrences_app, Hq, He. unfold occurrences.
    split.
    + destruct (onStop (heap w kp.2)); simpl;
        rewrite ?filter_cons, ?filter_nil; repeat case_decide; simplify_eq;
        simpl; lia.
    + destruct (onStop (heap w kp.2)) eqn:Es; simpl;
        rewrite ?filter_cons, ?filter_nil; repeat case_decide; simplify_eq;
        simpl; lia.
Qed.

(** Shutdown calls Stop once for every entry of the map, decommissioned or
    not: a handle gets as many Stops as it has keys.  A failing Stop is
    logged, once, and does not keep the others from being stopped.  The
    registry and the handles are left as they are, and [Run] returns the
    error of its context. *)
Theorem stop_stops_every_handle (w : World) (q : ptr) (err : option error) :
  mgr (stop w).2 = mgr w
  /\ heap (stop w).2 = heap w
  /\ occurrences (EvPlugin q CapStop) (emitted stop w)
     = length (filter (fun kp : string * ptr => kp.2 = q)
                      (map_to_list (plugins (mgr w))))
  /\ occurrences (EvLog LvlError "Failed to stop plugin") (emitted stop w)
     = length (filter (fun kp : string * ptr => onStop (heap w kp.2) <> None)
                      (map_to_list (plugins (mgr w))))
  /\ Run err w = (err, (stop w).2).
Proof.
  unfold emitted, stop. simpl.
  destruct (stop_frame (map_to_list (plugins (mgr w))) w) as [Hm Hh].
  destruct (stop_fold (map_to_list (plugins (mgr w))) w q) as (evs & Ht & Hq & He).
  split; [done|]. split; [done|].
  rewrite Ht, drop_app_length. done.
Qed.

(** ** The ids known to the loader *)

(** [registeredPlugins] holds the ids of the handles of the map; when the
    keys agree with those ids, it is the set of keys. *)
Theorem registeredPlugins_ids (w : World) :
  (forall id, id ∈ registeredPlugins w
              <-> exists k p, plugins (mgr w) !! k = Some p /\ ID (heap w p) = id)
  /\ (keys_match w -> registeredPlugins w = dom (plugins (mgr w))).
Proof.
  assert (H : forall id, id ∈ registeredPlugins w
              <-> exists k p, plugins (mgr w) !! k = Some p /\ ID (heap w p) = id).
  { unfold registeredPlugins.
    apply (map_fold_weak_ind
             (fun (r : gset string) (m : gmap string ptr) =>
                forall id, id ∈ r <-> exists k p, m !! k = Some p /\ ID (heap w p) = id)).
    - intros id. split; [set_solver|]. intros (k & p & Hk & _).
      by rewrite lookup_empty in Hk.
    - intros k p m r Hk IH id. rewrite elem_of_union, elem_of_singleton, IH. split.
      + intros [->|(k' & p' & Hk' & <-)].
        * exists k, p. by rewrite lookup_insert_eq.
        * exists k', p'. split; [|done]. rewrite lookup_insert_ne; [done|].
          intros ->. by rewrite Hk in Hk'.
      + intros (k' & p' & Hk' & <-). rewrite lookup_insert in Hk'.
        case_decide as E.
        * left. by injection Hk' as <-.
        * right. eauto. }
  split; [exact H|].
  intros Hkm. apply set_eq. intros id. rewrite H, elem_of_dom. split.
  - intros (k & p & Hk & <-). rewrite (Hkm _ _ Hk). eauto.
  - intros [p Hp]. exists id, p. split; [done|]. by apply Hkm.
Qed.

(** ** Loading *)

Lemma registerAndStart_frame (w : World) (p : ptr) :
  heap (registerAndStart p w).2 = heap w
  /\ Cfg_PluginsPath (mgr (registerAndStart p w).2) = Cfg_PluginsPath (mgr w).
Proof.
  unfold registerAndStart, register, bind, gets, ret, modify_plugins, emit. simpl.
  destruct (plugins (mgr w) !! ID (heap w p)); simpl; [done|].
  destruct (negb (isRegistered _ _)); simpl; [done|].
  run_reg. destruct (negb (IsManaged (heap w p)) || negb (Backend (heap w p))); [done|].
  simpl. by destruct (onStart (heap w p)).
Qed.

(** A batch of loaded handles that are live and have distinct, free ids is
    registered whole: every handle is afterwards found under its id, the
    lookups of all other ids are as before, and no error is returned. *)
Theorem registerAndStartAll_registers_all (ps : list ptr) (w : World) :
  NoDup (map (fun p => ID (heap w p)) ps) ->
  (forall p, p ∈ ps ->
     plugins (mgr w) !! ID (heap w p) = None /\ IsDecommissioned (heap w p) = false) ->
  let r := registerAndStartAll ps w in
  r.1.1 = None
  /\ heap r.2 = heap w
  /\ (forall p, p ∈ ps -> Plugin r.2 (ID (heap w p)) = Some p)
  /\ (forall id, id ∉ map (fun p => ID (heap w p)) ps -> Plugin r.2 id = Plugin w id).
Proof.
  revert w. induction ps as [|p ps IH]; intros w Hnd Hall; simpl.
  { split; [done|]. split; [done|]. split; [|done].
    intros p Hp. by apply elem_of_nil in Hp. }
  apply NoDup_cons in Hnd as [Hp Hnd].
  destruct (Hall p) as [Hfree Hlive]; [by left|].
  unfold bind. rewrite (registerAndStart_live_world w p Hfree Hlive).
  set (w1 := {| mgr := _; heap := heap w; trace := _ |}).
  assert (Hh1 : heap w1 = heap w) by done.
  destruct (IH w1) as (H1 & H2 & H3 & H4).
  { by rewrite Hh1. }
  { rewrite Hh1. intros q Hq. destruct (Hall q) as [Hqf Hql]; [by right|].
    split; [|done]. subst w1. simpl. rewrite lookup_insert_ne; [done|].
    intros Heq. apply Hp. rewrite Heq. apply list_elem_of_fmap. eauto. }
  destruct (registerAndStartAll ps w1) as [[err ws] w2]. simpl in *.
  unfold ret. simpl. split; [done|]. split; [done|]. split.
  - intros q [->|Hq]%elem_of_cons; [|by apply H3].
    rewrite H4 by done. subst w1. rewrite Plugin_insert.
    rewrite decide_True by done. by rewrite Hlive.
  - intros id Hid. apply not_elem_of_cons in Hid as [Hne Hid].
    rewrite H4 by done. subst w1. rewrite Plugin_insert. by rewrite decide_False.
Qed.

Lemma registerAndStartAll_registers_all_witness :
  let r := registerAndStartAll [1%nat; 2%nat] Samples.twoHandles in
  r.1.1 = None
  /\ heap r.2 = heap Samples.twoHandles
  /\ (forall p, p ∈ [1%nat; 2%nat] -> Plugin r.2 (ID (heap Samples.twoHandles p)) = Some p)
  /\ (forall id, id ∉ ["A"; "B"] -> Plugin r.2 id = Plugin Samples.twoHandles id).
Proof.
  apply (registerAndStartAll_registers_all [1%nat; 2%nat] Samples.twoHandles).
  - apply NoDup_cons. split.
    + intros [=]%list_elem_of_singleton.
    + apply NoDup_singleton.
  - intros p Hp. apply elem_of_cons in Hp as [->|Hp]; [done|].
    apply list_elem_of_singleton in Hp as ->. done.
Defined.

(** A batch stops at the first handle that cannot be registered: when the
    second handle has the id of the first, the first is registered (and
    started), the error of the second is returned and the rest of the batch
    is not looked at. *)
Theorem registerAndStartAll_stops_at_duplicate (w : World) (p q : ptr)
    (rest : list ptr) :
  plugins (mgr w) !! ID (heap w p) = None ->
  IsDecommissioned (heap w p) = false ->
  ID (heap w q) = ID (heap w p) ->
  let r := registerAndStartAll (p :: q :: rest) w in
  r.1.1 = Some (errors_New ("plugin " +:+ ID (heap w p) +:+ " already registered"))
  /\ plugins (mgr r.2) = <[ID (heap w p) := p]> (plugins (mgr w))
  /\ r.2 = (registerAndStart p w).2
  /\ r.1.2 = (registerAndStart p w).1.2.
Proof.
  intros Hfree Hlive Hid. simpl. unfold bind.
  rewrite (registerAndStart_live_world w p Hfree Hlive).
  set (w1 := {| mgr := _; heap := heap w; trace := _ |}).
  assert (registerAndStart q w1
          = ((Some (errors_New ("plugin " +:+ ID (heap w p) +:+ " already registered")),
              []), w1)) as ->.
  { unfold registerAndStart, register, bind, gets, ret. simpl.
    rewrite Hid, lookup_insert_eq. done. }
  unfold ret. simpl. by rewrite app_nil_r.
Qed.

Lemma registerAndStartAll_stops_at_duplicate_witness :
  let r := registerAndStartAll [1%nat; 3%nat; 2%nat] Samples.twoHandles in
  r.1.1 = Some (errors_New "plugin A already registered")
  /\ plugins (mgr r.2) = <["A" := 1%nat]> (plugins (mgr Samples.twoHandles))
  /\ r.2 = (registerAndStart 1%nat Samples.twoHandles).2
  /\ r.1.2 = (registerAndStart 1%nat Samples.twoHandles).1.2.
Proof.
  apply (registerAndStartAll_stops_at_duplicate Samples.twoHandles 1%nat 3%nat [2%nat]);
    reflexivity.
Defined.

Section LoadingFacts.

Variable StaticRootPath : string.
Variable PluginFactoryFunc : Type.
Variable pluginLoader_LoadWithFactory : string -> PluginFactoryFunc -> M (ptr + error).
Variable pluginLoader_LoadAll : list string -> gset string -> M (list ptr + error).

(** [Register] guards with the id it is given but registers the loaded
    handle under the handle's own id, and never starts it.
    - For an id with a live handle it fails at once, without loading.
    - Otherwise the loader runs; when it fails, its error is returned and
      nothing is registered.
    - When it gives a handle whose id is a key of the map (also that of a
      decommissioned handle), the error of [register] is returned.
    - When the id of the handle is free, the handle is put under it. *)
Theorem Register_guards_then_registers (w : World) (pluginID : string)
    (factory : PluginFactoryFunc) :
  let path := filepath_Join [StaticRootPath; "app/plugins/datasource"; pluginID] in
  let loaded := pluginLoader_LoadWithFactory path factory w in
  Register StaticRootPath PluginFactoryFunc pluginLoader_LoadWithFactory
    pluginID factory w
  = match Plugin w pluginID with
    | Some _ =>
        (Some (errors_New ("backend plugin " +:+ pluginID +:+ " already registered")), w)
    | None =>
        match loaded.1 with
        | inr err => (Some err, loaded.2)
        | inl p =>
            let id := ID (heap loaded.2 p) in
            match plugins (mgr loaded.2) !! id with
            | Some _ =>
                (Some (errors_New ("plugin " +:+ id +:+ " already registered")),
                 loaded.2)
            | None =>
                (None,
                 {| mgr := set_plugins (<[id := p]> (plugins (mgr loaded.2)))
                                       (mgr loaded.2);
                    heap := heap loaded.2;
                    trace := (trace loaded.2
                              ++ [EvLog LvlDebug "Plugin registered"])%list |})
            end
        end
    end.
Proof.
  intros path loaded. unfold Register, bind, gets, ret.
  rewrite isRegistered_Plugin. destruct (Plugin w pluginID) as [q|].
  { by rewrite bool_decide_eq_true_2. }
  rewrite bool_decide_eq_false_2 by (by intros []).
  fold path. fold loaded. destruct loaded as [[p|err] w1]; simpl; [|done].
  unfold register, bind, gets, ret, modify_plugins, emit. simpl.
  by destruct (plugins (mgr w1) !! ID (heap w1 p)).
Qed.

(** [loadPlugins] hands the loader the ids of the handles of the map; when
    the loader fails nothing is registered, and otherwise the handles it
    gives are registered and started in order. *)
Lemma loadPlugins_unfold (path : list string) (w : World) :
  loadPlugins pluginLoader_LoadAll path w
  = (let '(loaded, w1) := pluginLoader_LoadAll path (registeredPlugins w) w in
     match loaded with
     | inr err => ((Some err, []), w1)
     | inl ps => registerAndStartAll ps w1
     end).
Proof.
  unfold loadPlugins, bind, gets, ret.
  by destruct (pluginLoader_LoadAll path (registeredPlugins w) w) as [[ps|err] w1].
Qed.

End LoadingFacts.

(** ** Install *)

Section InstallFacts.

Variable pluginLoader_LoadAll : list string -> gset string -> M (list ptr + error).
Variable pluginInstaller_GetUpdateInfo : string -> string -> string -> M (string + error).
Variable pluginInstaller_Install :
  string -> string -> string -> string -> string -> M (option error).

Abbreviation Install' :=
  (Install pluginLoader_LoadAll pluginInstaller_GetUpdateInfo pluginInstaller_Install).

(** A plugin that is not external can be neither installed over nor
    uninstalled: Install fails with the core-plugin error before it asks the
    installer for anything, Uninstall fails with its core-plugin error
    before it looks at the directory, and both leave the world as it is. *)
Theorem core_plugin_untouched (w : World) (pluginID version : string)
    (opts : InstallOpts) (p : ptr) :
  Plugin w pluginID = Some p ->
  IsExternalPlugin (heap w p) = false ->
  Install' pluginID version opts w = ((Some (InstallErr ErrInstallCorePlugin), []), w)
  /\ Uninstall pluginID w = (Some ErrUninstallCorePlugin, w).
Proof.
  intros HP He. split.
  - unfold Install, prepareInstall, bind, gets, ret. by rewrite HP, He.
  - unfold Uninstall, bind, gets, ret. by rewrite HP, He.
Qed.

(** Installing the version that is installed fails with the duplicate error,
    which carries the id and the directory of the installed handle; the
    installer and the loader are not called and nothing changes. *)
Theorem Install_same_version (w : World) (pluginID : string) (opts : InstallOpts)
    (p : ptr) :
  Plugin w pluginID = Some p ->
  IsExternalPlugin (heap w p) = true ->
  Install' pluginID (InfoVersion (heap w p)) opts w
  = ((Some (InstallDuplicate {| dupPluginID := ID (heap w p);
                                ExistingPluginDir := PluginDir (heap w p) |}), []),
     w).
Proof.
  intros HP He. unfold Install, prepareInstall, bind, gets, ret.
  rewrite HP, He. simpl. by rewrite decide_True.
Qed.

(** An upgrade stops at the first failure.  When the update information
    cannot be had, its error is returned and nothing is uninstalled; when
    the installed version cannot be uninstalled, that error is returned.  In
    both cases the installer is not asked to install and nothing is
    loaded. *)
Theorem Install_upgrade_stops (w : World) (pluginID version : string)
    (opts : InstallOpts) (p : ptr) :
  Plugin w pluginID = Some p ->
  IsExternalPlugin (heap w p) = true ->
  InfoVersion (heap w p) <> version ->
  let repoURL := if decide (PluginRepoURL opts = EmptyString) then grafanaComURL
                 else PluginRepoURL opts in
  let info := pluginInstaller_GetUpdateInfo pluginID version repoURL w in
  match info.1 with
  | inr err => Install' pluginID version opts w = ((Some (InstallErr err), []), info.2)
  | inl _ =>
      forall err, (Uninstall (ID (heap w p)) info.2).1 = Some err ->
      Install' pluginID version opts w
      = ((Some (InstallErr err), []), (Uninstall (ID (heap w p)) info.2).2)
  end.
Proof.
  intros HP He Hv repoURL info.
  unfold Install, prepareInstall, bind, gets, ret. rewrite HP, He. simpl.
  rewrite decide_False by done. fold repoURL. fold info.
  destruct info as [[zip|err] w1]; simpl; [|done].
  intros err Hu. destruct (Uninstall (ID (heap w p)) w1) as [[e|] w2]; simpl in *;
    [by injection Hu as ->|done].
Qed.

(** For an id without a live handle, empty options stand for the defaults:
    Install behaves as with the plugins root of the configuration as the
    install directory and the grafana.com URL as the repository.  When the
    installer fails, its error is returned and the loader is not run. *)
Theorem Install_fresh_defaults (w : World) (pluginID version : string)
    (opts : InstallOpts) :
  Plugin w pluginID = None ->
  let dir := if decide (InstallDir opts = EmptyString) then Cfg_PluginsPath (mgr w)
             else InstallDir opts in
  let repoURL := if decide (PluginRepoURL opts = EmptyString) then grafanaComURL
                 else PluginRepoURL opts in
  Install' pluginID version opts w
  = Install' pluginID version
      {| InstallDir := dir; PluginRepoURL := repoURL;
         PluginZipURL := PluginZipURL opts |} w
  /\ let inst := pluginInstaller_Install pluginID version dir (PluginZipURL opts)
                   repoURL w in
     forall err, inst.1 = Some err ->
       Install' pluginID version opts w = ((Some (InstallErr err), []), inst.2).
Proof.
  intros HP dir repoURL. split.
  - unfold Install, prepareInstall, bind, gets, ret. rewrite HP. simpl.
    fold dir. fold repoURL.
    assert ((if decide (repoURL = EmptyString) then grafanaComURL else repoURL)
            = repoURL) as ->.
    { subst repoURL. repeat case_decide; done. }
    assert ((if decide (dir = EmptyString) then Cfg_PluginsPath (mgr w) else dir)
            = dir) as ->.
    { subst dir. repeat case_decide; congruence. }
    done.
  - intros inst err Hi. unfold Install, prepareInstall, bind, gets, ret.
    rewrite HP. simpl. fold dir. fold repoURL.
    assert ((if decide (PluginZipURL opts = EmptyString) then EmptyString
             else PluginZipURL opts) = PluginZipURL opts) as ->.
    { by case_decide. }
    change (pluginInstaller_Install pluginID version dir (PluginZipURL opts) repoURL w)
      with inst.
    destruct inst as [[e|] w1]; simpl in *; [by injection Hi as ->|done].
Qed.

End InstallFacts.

Lemma core_plugin_untouched_witness :
  let w := Samples.worldWith Samples.handleCore in
  Install (Samples.loadHandles []) (Samples.updateInfo (inl "zip"))
    (Samples.installAnswers None) "A" "2.0" Samples.noOpts w
  = ((Some (InstallErr ErrInstallCorePlugin), []), w)
  /\ Uninstall "A" w = (Some ErrUninstallCorePlugin, w).
Proof.
  apply (core_plugin_untouched (Samples.loadHandles []) (Samples.updateInfo (inl "zip"))
           (Samples.installAnswers None) (Samples.worldWith Samples.handleCore)
           "A" "2.0" Samples.noOpts 1%nat); reflexivity.
Defined.

Lemma Install_same_version_witness :
  let w := Samples.worldWith Samples.handleA in
  Install (Samples.loadHandles []) (Samples.updateInfo (inl "zip"))
    (Samples.installAnswers None) "A" "1.0" Samples.noOpts w
  = ((Some (InstallDuplicate {| dupPluginID := "A";
                                ExistingPluginDir := "/var/lib/grafana/plugins/A" |}),
      []), w).
Proof.
  apply (Install_same_version (Samples.loadHandles []) (Samples.updateInfo (inl "zip"))
           (Samples.installAnswers None) (Samples.worldWith Samples.handleA)
           "A" Samples.noOpts 1%nat); reflexivity.
Defined.

Lemma Install_upgrade_stops_witness :
  let w := Samples.worldWith (Samples.handleIn "/var/lib") in
  Install (Samples.loadHandles []) (Samples.updateInfo (inl "zip"))
    (Samples.installAnswers None) "A" "2.0" Samples.noOpts w
  = ((Some (InstallErr ErrUninstallOutsideOfPluginDir), []), w)
  /\ Install (Samples.loadHandles []) (Samples.updateInfo (inr ErrPluginUnavailable))
       (Samples.installAnswers None) "A" "2.0" Samples.noOpts w
     = ((Some (InstallErr ErrPluginUnavailable), []), w).
Proof.
  intros w. split.
  - pose proof (Install_upgrade_stops (Samples.loadHandles [])
                  (Samples.updateInfo (inl "zip")) (Samples.installAnswers None)
                  w "A" "2.0" Samples.noOpts 1%nat) as H.
    apply (H eq_refl eq_refl ltac:(discriminate) ErrUninstallOutsideOfPluginDir).
    reflexivity.
  - pose proof (Install_upgrade_stops (Samples.loadHandles [])
                  (Samples.updateInfo (inr ErrPluginUnavailable))
                  (Samples.installAnswers None)
                  w "A" "2.0" Samples.noOpts 1%nat) as H.
    apply (H eq_refl eq_refl ltac:(discriminate)).
Defined.

Lemma Install_fresh_defaults_witness :
  let w := Samples.emptyWorld in
  Install (Samples.loadHandles []) (Samples.updateInfo (inl "zip"))
    (Samples.installAnswers (Some ErrPluginUnavailable)) "A" "1.0" Samples.noOpts w
  = Install (Samples.loadHandles []) (Samples.updateInfo (inl "zip"))
      (Samples.installAnswers (Some ErrPluginUnavailable)) "A" "1.0"
      {| InstallDir := "/var/lib/grafana/plugins"; PluginRepoURL := grafanaComURL;
         PluginZipURL := EmptyString |} w
  /\ Install (Samples.loadHandles []) (Samples.updateInfo (inl "zip"))
       (Samples.installAnswers (Some ErrPluginUnavailable)) "A" "1.0" Samples.noOpts w
     = ((Some (InstallErr ErrPluginUnavailable), []), w).
Proof.
  intros w.
  destruct (Install_fresh_defaults (Samples.loadHandles [])
              (Samples.updateInfo (inl "zip"))
              (Samples.installAnswers (Some ErrPluginUnavailable))
              w "A" "1.0" Samples.noOpts eq_refl) as [H1 H2].
  split; [exact H1|]. apply (H2 ErrPluginUnavailable). reflexivity.
Defined.

(** ** The dispatcher *)

(** The three data operations leave the registry and the handles as they
    are, and call the plugin at most once: apart from the validator call of
    CheckHealth, the one plugin call is all they add to the trace. *)
Theorem dispatcher_calls_once (w : World) (req : QueryDataRequest)
    (pluginID : string) (pCtx : PluginContext) :
  (mgr (QueryData req w).2 = mgr w /\ heap (QueryData req w).2 = heap w
   /\ emitted (QueryData req) w
      = match Plugin w (PluginID (qdPluginContext req)) with
        | Some p => [EvPlugin p CapQueryData]
        | None => []
        end)
  /\ (mgr (CollectMetrics pluginID w).2 = mgr w
      /\ heap (CollectMetrics pluginID w).2 = heap w
      /\ emitted (CollectMetrics pluginID) w
         = match Plugin w pluginID with
           | Some p => [EvPlugin p CapCollectMetrics]
           | None => []
           end)
  /\ (mgr (CheckHealth pCtx w).2 = mgr w /\ heap (CheckHealth pCtx w).2 = heap w
      /\ emitted (CheckHealth pCtx) w
         = EvValidate (dataSourceURL pCtx)
           :: match requestValidator (mgr w) (dataSourceURL pCtx) None,
                    Plugin w (PluginID pCtx) with
              | None, Some p => [EvPlugin p CapCheckHealth]
              | _, _ => []
              end).
Proof.
  unfold emitted. repeat split.
  - run. destruct (Plugin w _); [|done]. simpl.
    destruct (onQueryData _ _) as [r [e|]]; [|done].
    by destruct (errors_Is e ErrMethodNotImplemented), (errors_Is e ErrPluginUnavailable).
  - run. destruct (Plugin w _); [|done]. simpl.
    destruct (onQueryData _ _) as [r [e|]]; [|done].
    by destruct (errors_Is e ErrMethodNotImplemented), (errors_Is e ErrPluginUnavailable).
  - run. destruct (Plugin w _); [|by rewrite drop_all]. simpl.
    destruct (onQueryData _ _) as [r [e|]]; simpl.
    + destruct (errors_Is e ErrMethodNotImplemented), (errors_Is e ErrPluginUnavailable);
        simpl; by rewrite drop_app_length.
    + by rewrite drop_app_length.
  - run. destruct (Plugin w _); [|done]. simpl.
    by destruct (onCollectMetrics _) as [r [e|]].
  - run. destruct (Plugin w _); [|done]. simpl.
    by destruct (onCollectMetrics _) as [r [e|]].
  - run. destruct (Plugin w _); [|by rewrite drop_all]. simpl.
    destruct (onCollectMetrics _) as [r [e|]]; simpl; by rewrite drop_app_length.
  - run. destruct (requestValidator _ _ _); [done|]. rewrite Plugin_trace.
    destruct (Plugin w _); [|done]. simpl.
    destruct (onCheckHealth _ _) as [r [e|]]; [|done].
    by destruct (errors_Is e ErrMethodNotImplemented), (errors_Is e ErrPluginUnavailable).
  - run. destruct (requestValidator _ _ _); [done|]. rewrite Plugin_trace.
    destruct (Plugin w _); [|done]. simpl.
    destruct (onCheckHealth _ _) as [r [e|]]; [|done].
    by destruct (errors_Is e ErrMethodNotImplemented), (errors_Is e ErrPluginUnavailable).
  - run. destruct (requestValidator _ _ _); [simpl; by rewrite drop_app_length|].
    rewrite Plugin_trace.
    destruct (Plugin w _); [|simpl; by rewrite drop_app_length]. simpl.
    destruct (onCheckHealth _ _) as [r [e|]]; simpl.
    + destruct (errors_Is e ErrMethodNotImplemented), (errors_Is e ErrPluginUnavailable);
        simpl; by rewrite <- app_assoc, drop_app_length.
    + by rewrite <- app_assoc, drop_app_length.
Qed.

(** When the validator rejects a health check, CheckHealth answers with the
    forbidden status and no error, whether or not the plugin exists: the
    registry is not consulted and no plugin is called. *)
Theorem CheckHealth_denied (w : World) (pCtx : PluginContext) (err : error) :
  requestValidator (mgr w) (dataSourceURL pCtx) None = Some err ->
  CheckHealth pCtx w
  = ((Some {| chStatus := 403; chMessage := "Access denied" |}, None),
     {| mgr := mgr w; heap := heap w;
        trace := (trace w ++ [EvValidate (dataSourceURL pCtx)])%list |}).
Proof. intros Hv. run. by rewrite Hv. Qed.

Lemma CheckHealth_denied_witness :
  CheckHealth Samples.ctxA Samples.emptyWorldDenying
  = ((Some {| chStatus := 403; chMessage := "Access denied" |}, None),
     {| mgr := mgr Samples.emptyWorldDenying; heap := heap Samples.emptyWorldDenying;
        trace := [EvValidate EmptyString] |}).
Proof.
  apply (CheckHealth_denied Samples.emptyWorldDenying Samples.ctxA
           (errors_New "not on the whitelist")).
  reflexivity.
Defined.

(** CollectMetrics hands back what the plugin answers: the result when
    there is no error, and otherwise the plugin's error itself, never
    wrapped, with no result. *)
Theorem CollectMetrics_verbatim (w : World) (pluginID : string) (p : ptr) :
  Plugin w pluginID = Some p ->
  (CollectMetrics pluginID w).1
  = match (onCollectMetrics (heap w p)).2 with
    | Some err => (None, Some err)
    | None => ((onCollectMetrics (heap w p)).1, None)
    end.
Proof.
  intros HP. run. rewrite HP. simpl.
  by destruct (onCollectMetrics (heap w p)) as [r [e|]].
Qed.

Lemma CollectMetrics_verbatim_witness :
  (CollectMetrics "A" (Samples.worldWith Samples.handleA)).1
  = (Some {| cmPrometheusMetrics := "up 1" |}, None).
Proof.
  apply (CollectMetrics_verbatim (Samples.worldWith Samples.handleA) "A" 1%nat).
  reflexivity.
Defined.

Lemma errors_Is_wrap (msg : string) (e target : error) :
  target <> fmt_Errorf_w msg e ->
  errors_Is (fmt_Errorf_w msg e) target = errors_Is e target.
Proof.
  intros Hne. cbn [errors_Is].
  destruct (decide (fmt_Errorf_w msg e = target)) as [E|E]; [by subst|done].
Qed.

Lemma errors_Is_refl (e : error) : errors_Is e e = true.
Proof.
  destruct e; cbn [errors_Is];
    match goal with
    | |- context [decide ?P] => destruct (decide P) as [|n]; [done | by destruct n]
    end.
Qed.

Lemma wrap_not_self (msg : string) (e : error) : e <> fmt_Errorf_w msg e.
Proof. induction e; try discriminate. intros [= -> He]. by apply IHe. Qed.

(** Whatever error QueryData or CheckHealth returns for a failed plugin
    call, testing it for the NotImplemented or the Unavailable sentinel
    gives what the test gives on the plugin's error.  The error of QueryData
    still has the plugin's error in its chain; that of CheckHealth has the
    HealthCheckFailed sentinel in its chain unless it is the plugin's error
    itself. *)
Theorem sentinel_tests_survive (w : World) (p : ptr) (req : QueryDataRequest)
    (pCtx : PluginContext) (r1 : option QueryDataResponse)
    (r2 : option CheckHealthResult) (e : error) (s : error) :
  s = ErrMethodNotImplemented \/ s = ErrPluginUnavailable ->
  (Plugin w (PluginID (qdPluginContext req)) = Some p ->
   onQueryData (heap w p) req = (r1, Some e) ->
   exists e', (QueryData req w).1 = (None, Some e')
              /\ errors_Is e' s = errors_Is e s
              /\ errors_Is e' e = true)
  /\ (requestValidator (mgr w) (dataSourceURL pCtx) None = None ->
      Plugin w (PluginID pCtx) = Some p ->
      onCheckHealth (heap w p) pCtx = (r2, Some e) ->
      exists e', (CheckHealth pCtx w).1 = (None, Some e')
                 /\ errors_Is e' s = errors_Is e s
                 /\ (e' = e \/ errors_Is e' ErrHealthCheckFailed = true)).
Proof.
  intros Hs. split.
  - intros HP Hq. run. rewrite HP. simpl. rewrite Hq.
    destruct (errors_Is e ErrMethodNotImplemented) eqn:E1;
      [eexists; split; [done|]; split; [done|apply errors_Is_refl]|].
    destruct (errors_Is e ErrPluginUnavailable) eqn:E2;
      [eexists; split; [done|]; split; [done|apply errors_Is_refl]|].
    eexists. split; [done|]. split.
    + unfold errutil_Wrap. rewrite errors_Is_wrap by (by destruct Hs as [-> | ->]).
      done.
    + unfold errutil_Wrap. rewrite errors_Is_wrap by apply wrap_not_self.
      apply errors_Is_refl.
  - intros Hv HP Hc. run. rewrite Hv, Plugin_trace, HP. simpl. rewrite Hc.
    destruct (errors_Is e ErrMethodNotImplemented) eqn:E1;
      [eexists; split; [done|]; split; [done|by left]|].
    destruct (errors_Is e ErrPluginUnavailable) eqn:E2;
      [eexists; split; [done|]; split; [done|by left]|].
    eexists. split; [done|]. split; [|by right].
    destruct Hs as [-> | ->]; by rewrite ?E1, ?E2.
Qed.

Lemma sentinel_tests_survive_witness :
  let w := Samples.worldWith (Samples.handleFailing (errors_New "boom")) in
  (exists e', (QueryData Samples.queryA w).1 = (None, Some e')
              /\ errors_Is e' ErrPluginUnavailable
                 = errors_Is (errors_New "boom") ErrPluginUnavailable
              /\ errors_Is e' (errors_New "boom") = true)
  /\ (exists e', (CheckHealth Samples.ctxA w).1 = (None, Some e')
                 /\ errors_Is e' ErrPluginUnavailable
                    = errors_Is (errors_New "boom") ErrPluginUnavailable
                 /\ (e' = errors_New "boom"
                     \/ errors_Is e' ErrHealthCheckFailed = true)).
Proof.
  intros w.
  destruct (sentinel_tests_survive w 1%nat Samples.queryA Samples.ctxA None None
              (errors_New "boom") ErrPluginUnavailable) as [Hq Hc]; [by right|].
  split; [apply Hq | apply Hc]; reflexivity.
Defined.

(** ** CallResource for a live handle *)

Section CallResourceLive.

Variable url_Parse : string -> URL + error.
Variable json_Unmarshal_keepCookies : string -> list string + error.
Variable ClearCookieHeader : Request -> list string -> Request.
Variable PrepareProxyRequest : Request -> Request.
Variable relay : ptr -> CallResourceRequest -> M (option error).

(** What [handleCallResourceError] answers for [err]: unavailable comes
    before not implemented, and everything else is a 500. *)
Lemma handleCallResourceError_answer (err : error) (w : World) :
  handleCallResourceError err w
  = (tt, {| mgr := mgr w; heap := heap w;
            trace := (trace w
                      ++ [if errors_Is err ErrPluginUnavailable
                          then EvJsonApiErr 503 "Plugin unavailable" err
                          else if errors_Is err ErrMethodNotImplemented
                               then EvJsonApiErr 404 "Not found" err
                               else EvJsonApiErr 500 "Failed to call resource" err])%list |}).
Proof.
  unfold handleCallResourceError, emit.
  by destruct (errors_Is err ErrPluginUnavailable), (errors_Is err ErrMethodNotImplemented).
Qed.


End CallResourceLive.


(** ** The relay on an ending stream *)

Lemma relayChunk_behaviour (c : CallResourceResponse) (k : nat) (w : ResponseWriter)
    (log : list LogLine) :
  wWriteResult (relayChunk k c w log).1 = wWriteResult w
  /\ wIsFlusher (relayChunk k c w log).1 = wIsFlusher w
  /\ wFlushes (relayChunk k c w log).1
     = (wFlushes w + if wIsFlusher w then 1 else 0)%nat
  /\ length (relayChunk k c w log).2
     = (length log + match wWriteResult w with Some _ => 1 | None => 0 end)%nat.
Proof.
  unfold relayChunk.
  destruct (crHeaders c), (k =? 0)%nat, (wWriteResult w) eqn:?, (wIsFlusher w) eqn:?;
    simpl; repeat (match goal with H : _ = _ |- _ => rewrite H end); simpl;
    rewrite ?length_app; simpl; repeat split; lia.
Qed.

Lemma relayChunks_behaviour (cs : list CallResourceResponse) (k : nat)
    (w : ResponseWriter) (log : list LogLine) :
  wWriteResult (relayChunks k cs w log).1 = wWriteResult w
  /\ wIsFlusher (relayChunks k cs w log).1 = wIsFlusher w
  /\ wFlushes (relayChunks k cs w log).1
     = (wFlushes w + if wIsFlusher w then length cs else 0)%nat
  /\ length (relayChunks k cs w log).2
     = (length log + match wWriteResult w with Some _ => length cs | None => 0 end)%nat.
Proof.
  revert k w log. induction cs as [|c cs IH]; intros k w log.
  - simpl. destruct (wIsFlusher w), (wWriteResult w); repeat split; lia.
  - rewrite relayChunks_cons.
    destruct (relayChunk_behaviour c k w log) as (H1 & H2 & H3 & H4).
    destruct (IH (Datatypes.S k) (relayChunk k c w log).1 (relayChunk k c w log).2)
      as (-> & -> & -> & ->).
    rewrite H1, H2, H3, H4. simpl.
    destruct (wIsFlusher w), (wWriteResult w); repeat split; lia.
Qed.

Section RelayFacts.

Context {S : Type} `{callResourceClientResponseStream S}.

(** The relay of a stream that delivers at least one chunk and then ends
    returns no error.  It has passed the bodies of the chunks to Write in
    the order received, called WriteHeader at most once (with the status of
    the first chunk, when that chunk carries headers), flushed after every
    chunk when the writer can flush, and logged every failed Write without
    stopping.  When the first chunk carries no headers the header map of the
    writer is untouched. *)
Theorem flushStream_relays_all (s s1 s2 : S) (c : CallResourceResponse)
    (cs : list CallResourceResponse) (r : option CallResourceResponse) (e : error)
    (w : ResponseWriter) :
  delivers s (c :: cs) s1 ->
  Recv s1 = (Returns (r, Some e), s2) ->
  errors_Is e io_EOF = true ->
  exists w' log,
    flushStream (Datatypes.S (length (c :: cs))) s w = Some (Returns None, s2, w', log)
    /\ wBody w' = (wBody w ++ map crBody (c :: cs))%list
    /\ wStatus w' = (wStatus w ++ match crHeaders c with
                                  | Some _ => [crStatus c]
                                  | None => []
                                  end)%list
    /\ wFlushes w' = (wFlushes w + if wIsFlusher w then length (c :: cs) else 0)%nat
    /\ length log = match wWriteResult w with
                    | Some _ => length (c :: cs)
                    | None => 0%nat
                    end
    /\ (crHeaders c = None -> wHeader w' = wHeader w).
Proof.
  intros Hd HR He.
  exists (relayChunks 0 (c :: cs) w []).1, (relayChunks 0 (c :: cs) w []).2.
  destruct (relayChunks_behaviour (c :: cs) 0 w []) as (_ & _ & Hf & Hl).
  split; [|split; [|split; [|split; [|split]]]].
  - unfold flushStream.
    replace (Datatypes.S (length (c :: cs))) with (length (c :: cs) + 1)%nat by lia.
    rewrite (flushStream_from_delivers s s1 (c :: cs) Hd).
    rewrite (flushStream_from_error s1 s2 r e 0 _ _ _ HR), He. done.
  - apply relayChunks_bodies.
  - apply (relayChunks_status (c :: cs)).
  - exact Hf.
  - exact Hl.
  - intros Hn. rewrite relayChunks_cons, relayChunks_headers_later.
    unfold relayChunk. rewrite Hn. simpl.
    by destruct (wWriteResult w), (wIsFlusher w).
Qed.

End RelayFacts.

(** The headers of the response come from the first chunk alone.  When its
    header map has only canonical keys: Set-Cookie is left as the writer has
    it; Content-Type gets the values of the chunk, or the JSON default when
    the chunk has no such key, but nothing at all when the chunk has the key
    with an empty list of values; the values of every other key are
    appended to those of the writer. *)
Theorem first_chunk_headers (c : CallResourceResponse)
    (cs : list CallResourceResponse) (headers : Header) (w : ResponseWriter)
    (log : list LogLine) (k : string) :
  crHeaders c = Some headers ->
  (forall k vs, headers !! k = Some vs -> CanonicalMIMEHeaderKey k = k) ->
  let had := default [] (wHeader w !! k) in
  wHeader (relayChunks 0 (c :: cs) w log).1 !! k
  = if decide (k = "Set-Cookie") then wHeader w !! k
    else match headers !! k with
         | Some (v :: vs) => Some (had ++ v :: vs)%list
         | Some [] => wHeader w !! k
         | None => if decide (k = "Content-Type")
                   then Some (had ++ ["application/json"])%list
                   else wHeader w !! k
         end.
Proof.
  intros Hh Hcan had. rewrite relayChunks_cons, relayChunks_headers_later.
  assert (wHeader (relayChunk 0 c w log).1
          = copyHeaders (match headers !! "Content-Type" with
                         | None => <["Content-Type" := ["application/json"]]> headers
                         | Some _ => headers
                         end) (wHeader w)) as ->.
  { unfold relayChunk. rewrite Hh. simpl.
    by destruct (wWriteResult w), (wIsFlusher w). }
  rewrite copyHeaders_canonical.
  - case_decide as Hsc; [done|].
    destruct (headers !! "Content-Type") as [ct|] eqn:Ect.
    + destruct (headers !! k) as [[|v vs]|] eqn:Ek; try done.
      case_decide as Hct; [|done]. subst k. by rewrite Ect in Ek.
    + rewrite lookup_insert. case_decide as Hct.
      * subst k. rewrite Ect. by rewrite decide_True.
      * destruct (headers !! k) as [[|v vs]|]; try done.
        by rewrite decide_False by done.
  - destruct (headers !! "Content-Type") eqn:Ect; [exact Hcan|].
    intros k' vs. rewrite lookup_insert. case_decide as E.
    + intros _. by subst k'.
    + apply Hcan.
Qed.

Lemma flushStream_relays_all_witness :
  let s := Samples.scheduled true
             [[ActSend (Some (Samples.headerChunk ∅ "a"))];
              [ActSend (Some (Samples.bodyChunk "b"))]; [ActClose]] in
  exists w' log,
    flushStream 3 s newRecorder
    = Some (Returns None, (Recv (Recv (Recv s).2).2).2, w', log)
    /\ wBody w' = ["a"; "b"]
    /\ wStatus w' = [200]
    /\ wFlushes w' = 2%nat
    /\ length log = 0%nat
    /\ (crHeaders (Samples.headerChunk ∅ "a") = None -> wHeader w' = ∅).
Proof.
  intros s.
  apply (flushStream_relays_all s (Recv (Recv s).2).2 (Recv (Recv (Recv s).2).2).2
           (Samples.headerChunk ∅ "a") [Samples.bodyChunk "b"] None io_EOF newRecorder).
  - eapply delivers_cons; [reflexivity|].
    eapply delivers_cons; [reflexivity|]. apply delivers_nil.
  - reflexivity.
  - reflexivity.
Defined.

Lemma first_chunk_headers_witness :
  wHeader (relayChunks 0 [Samples.headerChunk {[ "Set-Cookie" := ["sid=1"] ]} "a"]
             newRecorder []).1 !! "Set-Cookie" = None.
Proof.
  apply (first_chunk_headers (Samples.headerChunk {[ "Set-Cookie" := ["sid=1"] ]} "a") []
           {[ "Set-Cookie" := ["sid=1"] ]} newRecorder [] "Set-Cookie").
  - reflexivity.
  - intros k vs Hk. apply lookup_singleton_Some in Hk as [<- _]. reflexivity.
Defined.

(** ** The stream over time *)



Lemma closed_applyAction (s : callResourceResponseStream) (a : EnvAction) :
  closed s = true -> closed (applyAction s a) = true.
Proof.
  intros Hc. destruct a as [res| | |err]; simpl.
  - unfold Send. by rewrite Hc.
  - unfold Recv_stream. destruct (select2 _ _ _); simpl; try done.
    by destruct (chan_recv (stream s)) as [[?|] ?].
  - unfold Close_stream. by rewrite Hc.
  - by destruct (ctx s).
Qed.

Lemma ctx_applyAction (s : callResourceResponseStream) (a : EnvAction) (e : error) :
  ctx s = Some e -> ctx (applyAction s a) = Some e.
Proof.
  intros Hc. destruct a as [res| | | err]; simpl.
  - unfold Send. destruct (closed s); [done|].
    destruct (select2 _ _ _); simpl; try done.
    by destruct (chan_send res (stream s)).
  - unfold Recv_stream. destruct (select2 _ _ _); simpl; try done.
    by destruct (chan_recv (stream s)) as [[?|] ?].
  - unfold Close_stream. destruct (closed s); [done|].
    by destruct (chan_close (stream s)).
  - by rewrite Hc.
Qed.

(** Closing and cancelling are final.  Once a stream is closed it stays
    closed whatever happens next, and every later Send and Close returns an
    error.  Once its context is done with some error, the context stays done
    with that error: a later cancellation does not replace it. *)
Theorem closed_and_done_are_final (s : callResourceResponseStream)
    (acts : list EnvAction) (pick : bool) (res : option CallResourceResponse) :
  let s' := foldl applyAction s acts in
  (closed s = true ->
   closed s' = true
   /\ Send pick res s' = (Returns (Some (errors_New "cannot send to a closed stream")), s')
   /\ Close_stream s'
      = (Returns (Some (errors_New "cannot close a closed stream")), s'))
  /\ (forall e, ctx s = Some e -> ctx s' = Some e).
Proof.
  intros s'. subst s'. split.
  - intros Hc.
    assert (Hc' : closed (foldl applyAction s acts) = true).
    { revert s Hc. induction acts as [|a acts IH]; intros s Hc; simpl; [done|].
      apply IH. by apply closed_applyAction. }
    split; [done|]. unfold Send, Close_stream. by rewrite Hc'.
  - intros e. revert s. induction acts as [|a acts IH]; intros s Hc; simpl; [done|].
    apply IH. by apply ctx_applyAction.
Qed.

Lemma closed_and_done_are_final_witness :
  let s := applyAction (applyAction (newCallResourceResponseStream None) ActClose)
             (ActCancel context_Canceled) in
  let s' := foldl applyAction s [ActRecv; ActCancel context_DeadlineExceeded] in
  (closed s' = true
   /\ Send false None s' = (Returns (Some (errors_New "cannot send to a closed stream")), s')
   /\ Close_stream s'
      = (Returns (Some (errors_New "cannot close a closed stream")), s'))
  /\ ctx s' = Some context_Canceled.
Proof.
  intros s s'.
  destruct (closed_and_done_are_final s [ActRecv; ActCancel context_DeadlineExceeded]
              false None) as [H1 H2].
  split; [apply H1; reflexivity | apply (H2 context_Canceled); reflexivity].
Defined.

(** *** A producer that sends its chunks one after the other *)

Lemma Recv_after_send (pick : bool) (c : CallResourceResponse)
    (s : callResourceResponseStream) :
  idle s ->
  exists s', Recv_stream pick (foldl applyAction s [ActSend (Some c)])
             = (Returns (Some c, None), s')
             /\ idle s'.
Proof.
  intros (Hc & Hx & Hch & Hs & Hr). simpl.
  unfold Send, select2, ctx_Done, chan_can_send. rewrite Hc, Hx, Hch, Hr. simpl.
  unfold Recv_stream, select2, ctx_Done, chan_can_recv, chan_recv. simpl.
  rewrite Hx, Hch, Hs. simpl. eexists. split; [done|]. by repeat split.
Qed.

Lemma Recv_after_close (pick : bool) (s : callResourceResponseStream) :
  idle s ->
  (Recv_stream pick (foldl applyAction s [ActClose])).1 = Returns (None, Some io_EOF).
Proof.
  intros (Hc & Hx & Hch & Hs & Hr). simpl.
  unfold Close_stream, chan_close. rewrite Hc, Hch. simpl.
  unfold Recv_stream, select2, ctx_Done, chan_can_recv, chan_recv. simpl.
  by rewrite Hx.
Qed.

Lemma delivers_sequential (cs : list CallResourceResponse) (pick : nat -> bool)
    (rest : list (list EnvAction)) (n : nat) (s : callResourceResponseStream) :
  idle s ->
  exists s' n',
    idle s'
    /\ delivers {| se_stream := s;
                   se_sched := (map (fun c => [ActSend (Some c)]) cs ++ rest)%list;
                   se_pick := pick; se_selects := n |}
                cs
                {| se_stream := s'; se_sched := rest; se_pick := pick;
                   se_selects := n' |}.
Proof.
  revert n s. induction cs as [|c cs IH]; intros n s Hi.
  - exists s, n. split; [done|]. apply delivers_nil.
  - destruct (Recv_after_send (pick n) c s Hi) as (s1 & HR & Hi1).
    destruct (IH (Datatypes.S n) s1 Hi1) as (s' & n' & Hi' & Hd).
    exists s', n'. split; [done|].
    eapply delivers_cons; [|exact Hd].
    cbn [Recv streamInEnv_stream se_pick se_sched se_selects se_stream map app recv_sched].
    by rewrite HR.
Qed.

(** The relay against a producer that sends the chunks [cs] one after the
    other and whose stream is then closed: every chunk is received, in the
    order sent, and relayed; the relay then returns, without error when
    there was a chunk and with the error of the empty response when there
    was none.  The choices of the selects play no part. *)
Theorem relay_of_sequential_producer (cs : list CallResourceResponse)
    (pick : nat -> bool) (w : ResponseWriter) :
  let s := {| se_stream := newCallResourceResponseStream None;
              se_sched := (map (fun c => [ActSend (Some c)]) cs ++ [[ActClose]])%list;
              se_pick := pick; se_selects := 0%nat |} in
  Samples.observed (flushStream (Datatypes.S (length cs)) s w)
  = Some (Returns (match cs with
                   | [] => Some (errors_New "received empty resource response")
                   | _ :: _ => None
                   end),
          (relayChunks 0 cs w []).1, (relayChunks 0 cs w []).2)
  /\ wBody (relayChunks 0 cs w []).1 = (wBody w ++ map crBody cs)%list.
Proof.
  intros s. split; [|apply relayChunks_bodies].
  destruct (delivers_sequential cs pick [[ActClose]] 0 (newCallResourceResponseStream None))
    as (s1 & n1 & Hi & Hd); [by repeat split|].
  fold s in Hd. unfold flushStream.
  replace (Datatypes.S (length cs)) with (length cs + 1)%nat by lia.
  rewrite (flushStream_from_delivers _ _ cs Hd).
  set (e1 := {| se_stream := s1; se_sched := [[ActClose]]; se_pick := pick;
                se_selects := n1 |}).
  pose proof (Recv_after_close (pick n1) s1 Hi) as HR.
  assert (HR' : exists e2, Recv e1 = (Returns (None, Some io_EOF), e2)).
  { cbn [Recv streamInEnv_stream e1 se_pick se_sched se_selects se_stream recv_sched].
    destruct (Recv_stream (pick n1) (foldl applyAction s1 [ActClose])) as [r s2].
    simpl in HR. subst r. eauto. }
  destruct HR' as [e2 HR'].
  rewrite (flushStream_from_error e1 e2 None io_EOF 0 _ _ _ HR'). simpl.
  destruct cs; simpl; done.
Qed.


(** ** Signed files *)

(** For a plugin that is not a core plugin and has a manifest, a file may be
    served exactly when the manifest lists it: a larger manifest permits at
    least as much, and the empty manifest permits nothing.  Without manifest
    (a nil map), and for every core plugin, every file is permitted. *)
Theorem IncludedInSignature_by_manifest (p : PluginBase) (file : string) :
  (pbIsCorePlugin p = true \/ pbSignedFiles p = None ->
   IncludedInSignature p file = true)
  /\ (forall files, pbIsCorePlugin p = false -> pbSignedFiles p = Some files ->
      (IncludedInSignature p file = true <-> file ∈ files)
      /\ (files = ∅ -> IncludedInSignature p file = false)
      /\ forall p' files',
           pbIsCorePlugin p' = false -> pbSignedFiles p' = Some files' ->
           files ⊆ files' ->
           IncludedInSignature p file = true -> IncludedInSignature p' file = true).
Proof.
  unfold IncludedInSignature. split.
  - intros [-> | Hn]; [done|]. rewrite Hn. by destruct (pbIsCorePlugin p).
  - intros files Hc Hf. rewrite Hc, Hf. repeat split.
    + by case_decide.
    + intros Hin. by rewrite decide_True.
    + intros ->. rewrite decide_False; [done|]. set_solver.
    + intros p' files' Hc' Hf' Hsub. rewrite Hc', Hf'.
      case_decide as Hin; [|done]. intros _. rewrite decide_True; [done|]. set_solver.
Qed.

Lemma IncludedInSignature_by_manifest_witness :
  IncludedInSignature (Samples.signedPlugin {[ "module.js" ]}) "module.js" = true
  /\ IncludedInSignature (Samples.signedPlugin ∅) "module.js" = false.
Proof.
  destruct (IncludedInSignature_by_manifest (Samples.signedPlugin {[ "module.js" ]})
              "module.js") as [_ H1].
  destruct (H1 {[ "module.js" ]} eq_refl eq_refl) as (Hiff & _ & _).
  destruct (IncludedInSignature_by_manifest (Samples.signedPlugin ∅) "module.js")
    as [_ H2].
  destruct (H2 ∅ eq_refl eq_refl) as (_ & Hempty & _).
  split; [apply Hiff; set_solver | by apply Hempty].
Defined.

Lemma registeredPlugins_ids_witness :
  registeredPlugins (Samples.worldWith Samples.handleA)
  = dom (plugins (mgr (Samples.worldWith Samples.handleA))).
Proof.
  apply (registeredPlugins_ids (Samples.worldWith Samples.handleA)).
  intros id q Hq. cbn in Hq. apply lookup_singleton_Some in Hq as [<- _].
  reflexivity.
Defined.
